(** * togo: the task model (package [model])

    A shallow embedding of the domain model of the togo task tracker:
    identifiers ([task_id.go]), statuses, sentinel errors, the task
    factory ([task.go]) and the query filter ([task_filter.go]), together
    with the parts of the Go runtime and of [github.com/google/uuid] that
    these files call.

    Conventions.  A Go [string] is an immutable byte sequence and is
    modelled by [string]; where the code indexes bytes we go through
    [list_byte_of_string].  A Go [byte] is [Byte.byte]; arithmetic on it is
    done in [N] and reduced modulo 256.  A Go [int] is a [Z].  A pointer
    that may be [nil] is an [option].  A slice is [slice.t], which keeps
    the [nil] slice apart from the empty one. *)

From Stdlib Require Import ZArith NArith Ascii String List Bool Lia.
From Stdlib.Strings Require Import Byte.
From stdpp Require Import base option list vector finite gmap strings fin_maps.

Local Open Scope Z_scope.

(** ** Bytes *)

#[global] Instance byte_eq_decision : EqDecision byte := Byte.byte_eq_dec.
#[global] Instance byte_inhabited : Inhabited byte := populate Byte.x00.

Module u8.

(** Conversion of an unbounded number to a [uint8]: the low eight bits. *)
Definition of_N (n : N) : byte :=
  default Byte.x00 (Byte.of_N (n mod 256)%N).

Definition and (a b : byte) : byte := of_N (N.land (Byte.to_N a) (Byte.to_N b)).
Definition or (a b : byte) : byte := of_N (N.lor (Byte.to_N a) (Byte.to_N b)).
Definition shl (a : byte) (k : N) : byte := of_N (N.shiftl (Byte.to_N a) k).
Definition shr (a : byte) (k : N) : byte := of_N (N.shiftr (Byte.to_N a) k).

Definition ltb (a b : byte) : bool := (Byte.to_N a <? Byte.to_N b)%N.
Definition leb (a b : byte) : bool := (Byte.to_N a <=? Byte.to_N b)%N.

(** [s[i]] on a byte sequence.  Every use below is guarded by a length
    test, so the default is never returned (Go would panic). *)
Definition index (s : list byte) (i : nat) : byte := nth i s Byte.x00.

End u8.

(** ** Slices *)

Module slice.

(** [None] is the [nil] slice; [Some l] is a non-nil slice with
    elements [l] (possibly none). *)
Definition t (A : Type) : Type := option (list A).

Definition elems {A} (s : t A) : list A := default [] s.

Definition len {A} (s : t A) : Z := Z.of_nat (length (elems s)).

(** [dst := make([]T, len(src)); copy(dst, src)] *)
Definition clone {A} (s : t A) : t A := Some (elems s).

End slice.

(** ** crypto/rand

    The system's random source, as an unbounded supply of bytes and a
    read cursor.  [uuid.New] reads sixteen bytes from it. *)

Module rand.

Record Reader : Type := mkReader { supply : nat -> byte; cursor : nat }.

Definition ReadFull16 (r : Reader) : vec byte 16 * Reader :=
  (fun_to_vec (fun i : fin 16 => supply r (cursor r + fin_to_nat i)%nat),
   {| supply := supply r; cursor := (cursor r + 16)%nat |}).

End rand.

(** ** github.com/google/uuid

    [task_id.go] wraps the library's [UUID], an array of sixteen bytes,
    and delegates to its [Parse], [String] and [New].  The library is a
    dependency of the repository and is not among its sources. *)

Module uuid.

Definition UUID : Type := vec byte 16.

(** [uuid.Nil]: the zero value of the array. *)
Definition Nil : UUID := vreplicate 16 Byte.x00.

Inductive parse_error : Type :=
| invalid_urn_prefix (prefix : list byte)
| invalid_format
| invalid_length (n : nat).

(** The table [xvalues]: the value of a hexadecimal digit, 255 for any
    other byte. *)
Definition xvalues (c : byte) : byte :=
  let n := Byte.to_N c in
  if (48 <=? n)%N && (n <=? 57)%N then u8.of_N (n - 48)
  else if (65 <=? n)%N && (n <=? 70)%N then u8.of_N (n - 55)
  else if (97 <=? n)%N && (n <=? 102)%N then u8.of_N (n - 87)
  else Byte.xff.

Definition xtob (x1 x2 : byte) : byte * bool :=
  let b1 := xvalues x1 in
  let b2 := xvalues x2 in
  (u8.or (u8.shl b1 4) b2,
   negb (Byte.eqb b1 Byte.xff) && negb (Byte.eqb b2 Byte.xff)).

(** The 32-digit form: [uuid[i], ok = xtob(s[i*2], s[i*2+1])], leaving
    the loop at the first pair that is not hexadecimal. *)
Fixpoint parse_compact (s : list byte) (idx : list (fin 16)) (uuid : UUID)
  : UUID * option parse_error :=
  match idx with
  | [] => (uuid, None)
  | i :: rest =>
      let '(v, ok) := xtob (u8.index s (fin_to_nat i * 2))
                           (u8.index s (fin_to_nat i * 2 + 1)) in
      let uuid := vinsert i v uuid in
      if negb ok then (uuid, Some invalid_format)
      else parse_compact s rest uuid
  end.

(** Offsets of the sixteen digit pairs in the hyphenated form. *)
Definition offsets : list nat :=
  [0; 2; 4; 6; 9; 11; 14; 16; 19; 21; 24; 26; 28; 30; 32; 34]%nat.

Fixpoint parse_hyphenated (s : list byte) (ixs : list (fin 16 * nat))
  (uuid : UUID) : UUID * option parse_error :=
  match ixs with
  | [] => (uuid, None)
  | (i, x) :: rest =>
      let '(v, ok) := xtob (u8.index s x) (u8.index s (x + 1)) in
      if negb ok then (uuid, Some invalid_format)
      else parse_hyphenated s rest (vinsert i v uuid)
  end.

(** ASCII lower-casing of one byte; [strings.EqualFold] against the
    constant ["urn:uuid:"], which has no letter with a non-ASCII case
    variant, compares the nine bytes up to ASCII case. *)
Definition lower (c : byte) : byte :=
  let n := Byte.to_N c in
  if (65 <=? n)%N && (n <=? 90)%N then u8.of_N (n + 32) else c.

Definition urn_prefix : list byte := list_byte_of_string "urn:uuid:".

Definition EqualFold_urn (p : list byte) : bool :=
  bool_decide (map lower p = urn_prefix).

Definition dash : byte := "-"%byte.

(** Modelled from the spec: [uuid.Parse], which [ParseTaskID] calls and
    which is missing from the sources.  The spec only says that an
    identifier is "a 128-bit random value rendered as a canonical
    string"; the definition follows the library: the hyphenated form of
    36 bytes, the same after a [urn:uuid:] prefix (in any case) or between
    two enclosing bytes, and 32 bare digits; digits in either case. *)
Definition Parse (str : string) : UUID * option parse_error :=
  let s := list_byte_of_string str in
  let uuid := Nil in
  let hyphenated (s : list byte) :=
    if negb (Byte.eqb (u8.index s 8) dash) || negb (Byte.eqb (u8.index s 13) dash)
       || negb (Byte.eqb (u8.index s 18) dash) || negb (Byte.eqb (u8.index s 23) dash)
    then (uuid, Some invalid_format)
    else parse_hyphenated s (zip (enum (fin 16)) offsets) uuid in
  let n := length s in
  if (n =? 36)%nat then hyphenated s
  else if (n =? 36 + 9)%nat then
    if negb (EqualFold_urn (take 9 s))
    then (uuid, Some (invalid_urn_prefix (take 9 s)))
    else hyphenated (drop 9 s)
  else if (n =? 36 + 2)%nat then hyphenated (drop 1 s)
  else if (n =? 32)%nat then parse_compact s (enum (fin 16)) uuid
  else (uuid, Some (invalid_length n)).

(** [encoding/hex]: two lower-case digits per byte. *)
Definition hextable : list byte := list_byte_of_string "0123456789abcdef".

Definition hex_Encode (src : list byte) : list byte :=
  flat_map (fun v => [u8.index hextable (N.to_nat (Byte.to_N (u8.shr v 4)));
                      u8.index hextable (N.to_nat (Byte.to_N (u8.and v Byte.x0f)))])
           src.

Definition encodeHex (uuid : UUID) : list byte :=
  let u := vec_to_list uuid in
  hex_Encode (take 4 u) ++ [dash]
  ++ hex_Encode (take 2 (drop 4 u)) ++ [dash]
  ++ hex_Encode (take 2 (drop 6 u)) ++ [dash]
  ++ hex_Encode (take 2 (drop 8 u)) ++ [dash]
  ++ hex_Encode (drop 10 u).

(** Modelled from the spec: [UUID.String], which [TaskID.String] calls
    and which is missing from the sources: the "canonical string" of the
    spec, that is the sixteen bytes in lower-case hexadecimal, grouped
    8-4-4-4-12 by hyphens. *)
Definition String (uuid : UUID) : string := string_of_list_byte (encodeHex uuid).

(** Modelled from the spec: [uuid.New], which [NewTaskID] calls and
    which is missing from the sources: the "128-bit random value" of the
    spec.  As in the library's [NewRandomFromReader], sixteen random bytes
    are read, then the version (4) and variant (10) bits are forced. *)
Definition NewRandomFromReader (r : rand.Reader) : UUID * rand.Reader :=
  let '(uuid, r) := rand.ReadFull16 r in
  let uuid := vinsert 6%fin (u8.or (u8.and (uuid !!! 6%fin) Byte.x0f) Byte.x40) uuid in
  let uuid := vinsert 8%fin (u8.or (u8.and (uuid !!! 8%fin) Byte.x3f) Byte.x80) uuid in
  (uuid, r).

Definition New (r : rand.Reader) : UUID * rand.Reader := NewRandomFromReader r.

(** [a == b] on arrays: element by element. *)
Definition eqb (a b : UUID) : bool :=
  forallb (fun p => Byte.eqb (fst p) (snd p)) (zip (vec_to_list a) (vec_to_list b)).

End uuid.

(** ** unicode/utf8, unicode and strings

    [strings.TrimSpace], which [NewTask] applies to the title, with the
    decoding and classification functions it relies on. *)

Module utf8.

Definition rune : Type := Z.

Definition RuneError : rune := 0xFFFD.
Definition RuneSelf : byte := Byte.x80.
Definition UTFMax : Z := 4.

Definition rune_of (b : byte) : rune := Z.of_N (Byte.to_N b).

(** Reduction of an integer to a signed 32-bit [rune]. *)
Definition int32 (z : Z) : rune := (z + 2 ^ 31) mod 2 ^ 32 - 2 ^ 31.

Definition maskx : byte := Byte.x3f.
Definition mask2 : byte := Byte.x1f.
Definition mask3 : byte := Byte.x0f.
Definition mask4 : byte := Byte.x07.
Definition locb : byte := Byte.x80.
Definition hicb : byte := Byte.xbf.

(** Entries of the table [first]: [xx] invalid, [as_] ASCII, [s1]..[s7]
    the accept-range index in the high nibble and the size in the low. *)
Definition xx : byte := Byte.xf1.
Definition as_ : byte := Byte.xf0.
Definition s1 : byte := Byte.x02.
Definition s2 : byte := Byte.x13.
Definition s3 : byte := Byte.x03.
Definition s4 : byte := Byte.x23.
Definition s5 : byte := Byte.x34.
Definition s6 : byte := Byte.x04.
Definition s7 : byte := Byte.x44.

Definition first (b : byte) : byte :=
  let n := Byte.to_N b in
  (if n <? 0x80 then as_
   else if n <? 0xC2 then xx
   else if n <? 0xE0 then s1
   else if n =? 0xE0 then s2
   else if n <? 0xED then s3
   else if n =? 0xED then s4
   else if n <? 0xF0 then s3
   else if n =? 0xF0 then s5
   else if n <? 0xF4 then s6
   else if n =? 0xF4 then s7
   else xx)%N.

Definition acceptRanges (i : byte) : byte * byte :=
  match Byte.to_N i with
  | 0%N => (locb, hicb)
  | 1%N => (Byte.xa0, hicb)
  | 2%N => (locb, Byte.x9f)
  | 3%N => (Byte.x90, hicb)
  | 4%N => (locb, Byte.x8f)
  | _ => (Byte.x00, Byte.x00)
  end.

Definition bits (b m : byte) : rune := rune_of (u8.and b m).

Definition DecodeRuneInString (s : list byte) : rune * nat :=
  let n := length s in
  if (n <? 1)%nat then (RuneError, 0%nat)
  else
    let s0 := u8.index s 0 in
    let x := first s0 in
    if u8.leb as_ x then
      let mask := Z.shiftr (int32 (Z.shiftl (rune_of x) 31)) 31 in
      (Z.lor (Z.land (rune_of s0) (Z.lnot mask)) (Z.land RuneError mask), 1%nat)
    else
      let sz := N.to_nat (Byte.to_N (u8.and x Byte.x07)) in
      let accept := acceptRanges (u8.shr x 4) in
      if (n <? sz)%nat then (RuneError, 1%nat)
      else
        let s1 := u8.index s 1 in
        if u8.ltb s1 (fst accept) || u8.ltb (snd accept) s1 then (RuneError, 1%nat)
        else if (sz <=? 2)%nat then
          (Z.lor (Z.shiftl (bits s0 mask2) 6) (bits s1 maskx), 2%nat)
        else
          let s2 := u8.index s 2 in
          if u8.ltb s2 locb || u8.ltb hicb s2 then (RuneError, 1%nat)
          else if (sz <=? 3)%nat then
            (Z.lor (Z.lor (Z.shiftl (bits s0 mask3) 12) (Z.shiftl (bits s1 maskx) 6))
                   (bits s2 maskx), 3%nat)
          else
            let s3 := u8.index s 3 in
            if u8.ltb s3 locb || u8.ltb hicb s3 then (RuneError, 1%nat)
            else
              (Z.lor (Z.lor (Z.lor (Z.shiftl (bits s0 mask4) 18)
                                   (Z.shiftl (bits s1 maskx) 12))
                            (Z.shiftl (bits s2 maskx) 6))
                     (bits s3 maskx), 4%nat).

(** [b&0xC0 != 0x80] *)
Definition RuneStart (b : byte) : bool :=
  negb (Byte.eqb (u8.and b Byte.xc0) Byte.x80).

(** [for start--; start >= lim; start-- { if RuneStart(s[start]) break }]
    with [k] the number of positions from [lim] up to [start]; the
    value of [start] after the loop. *)
Fixpoint scan_back (s : list byte) (lim : Z) (k : nat) : Z :=
  match k with
  | O => lim - 1
  | S k' =>
      let start := lim + Z.of_nat k' in
      if RuneStart (u8.index s (Z.to_nat start)) then start
      else scan_back s lim k'
  end.

Definition DecodeLastRuneInString (s : list byte) : rune * nat :=
  let end_ := Z.of_nat (length s) in
  if end_ =? 0 then (RuneError, 0%nat)
  else
    let start := end_ - 1 in
    let r := rune_of (u8.index s (Z.to_nat start)) in
    if r <? rune_of RuneSelf then (r, 1%nat)
    else
      let lim := end_ - UTFMax in
      let lim := if lim <? 0 then 0 else lim in
      let start := scan_back s lim (Z.to_nat (start - 1 - lim + 1)) in
      let start := if start <? 0 then 0 else start in
      let '(r, size) := DecodeRuneInString (drop (Z.to_nat start) s) in
      if negb (start + Z.of_nat size =? end_) then (RuneError, 1%nat)
      else (r, size).

End utf8.

Module unicode.

Definition MaxLatin1 : Z := 0xFF.

(** The ranges of the table [White_Space] above Latin-1. *)
Definition White_Space_excluding_Latin (r : utf8.rune) : bool :=
  (r =? 0x1680) || ((0x2000 <=? r) && (r <=? 0x200a))
  || ((0x2028 <=? r) && (r <=? 0x2029)) || (r =? 0x202f)
  || (r =? 0x205f) || (r =? 0x3000).

Definition IsSpace (r : utf8.rune) : bool :=
  if (0 <=? r) && (r <=? MaxLatin1) then
    (r =? 9) || (r =? 10) || (r =? 11) || (r =? 12) || (r =? 13) || (r =? 32)
    || (r =? 0x85) || (r =? 0xA0)
  else White_Space_excluding_Latin r.

End unicode.

Module gostrings.

(** The table [asciiSpace]. *)
Definition asciiSpace (c : byte) : bool :=
  let n := Byte.to_N c in
  ((n =? 9) || (n =? 10) || (n =? 11) || (n =? 12) || (n =? 13) || (n =? 32))%N.

(** [for i, r := range s { if f(r) == truth { return i } }; return -1].
    The loop visits the byte positions where a rune starts; [skip]
    counts the remaining bytes of the rune decoded last. *)
Fixpoint indexFunc_from (f : utf8.rune -> bool) (truth : bool)
  (s : list byte) (i : Z) (skip : nat) : Z :=
  match s with
  | [] => -1
  | _ :: rest =>
      match skip with
      | S k => indexFunc_from f truth rest (i + 1) k
      | O =>
          let '(r, size) := utf8.DecodeRuneInString s in
          if Bool.eqb (f r) truth then i
          else indexFunc_from f truth rest (i + 1) (size - 1)
      end
  end.

Definition indexFunc (s : list byte) (f : utf8.rune -> bool) (truth : bool) : Z :=
  indexFunc_from f truth s 0 0.

(** [for i := len(s); i > 0; { r, size := DecodeLastRuneInString(s[0:i]);
    i -= size; if f(r) == truth { return i } }; return -1] *)
Fixpoint lastIndexFunc_from (f : utf8.rune -> bool) (truth : bool)
  (s : list byte) (i : nat) (skip : nat) : Z :=
  match i with
  | O => -1
  | S i' =>
      match skip with
      | S k => lastIndexFunc_from f truth s i' k
      | O =>
          let '(r, size) := utf8.DecodeLastRuneInString (take i s) in
          if Bool.eqb (f r) truth then Z.of_nat i - Z.of_nat size
          else lastIndexFunc_from f truth s i' (size - 1)
      end
  end.

Definition lastIndexFunc (s : list byte) (f : utf8.rune -> bool) (truth : bool) : Z :=
  lastIndexFunc_from f truth s (length s) 0.

Definition TrimLeftFunc (s : list byte) (f : utf8.rune -> bool) : list byte :=
  let i := indexFunc s f false in
  if i =? -1 then [] else drop (Z.to_nat i) s.

Definition TrimRightFunc (s : list byte) (f : utf8.rune -> bool) : list byte :=
  let i := lastIndexFunc s f false in
  let i :=
    if (0 <=? i) && u8.leb utf8.RuneSelf (u8.index s (Z.to_nat i)) then
      let '(_, wid) := utf8.DecodeRuneInString (drop (Z.to_nat i) s) in
      i + Z.of_nat wid
    else i + 1 in
  take (Z.to_nat i) s.

Definition TrimFunc (s : list byte) (f : utf8.rune -> bool) : list byte :=
  TrimRightFunc (TrimLeftFunc s f) f.

(** First loop of [TrimSpace]: [inl] is a value returned from inside the
    loop, [inr] is [s[start:]] when the loop is left. *)
Fixpoint TrimSpace_start (s : list byte) : list byte + list byte :=
  match s with
  | [] => inr []
  | c :: rest =>
      if u8.leb utf8.RuneSelf c then inl (TrimFunc s unicode.IsSpace)
      else if negb (asciiSpace c) then inr s
      else TrimSpace_start rest
  end.

(** Second loop, on [s[start:]], with [stop] counted from [start]. *)
Fixpoint TrimSpace_stop (s : list byte) (stop : nat) : list byte :=
  match stop with
  | O => take stop s
  | S k =>
      let c := u8.index s k in
      if u8.leb utf8.RuneSelf c then TrimRightFunc (take stop s) unicode.IsSpace
      else if negb (asciiSpace c) then take stop s
      else TrimSpace_stop s k
  end.

Definition TrimSpace_bytes (s : list byte) : list byte :=
  match TrimSpace_start s with
  | inl r => r
  | inr s' => TrimSpace_stop s' (length s')
  end.

Definition TrimSpace (s : string) : string :=
  string_of_list_byte (TrimSpace_bytes (list_byte_of_string s)).

End gostrings.

(** ** time

    A [time.Time] is taken as the instant it denotes, in nanoseconds
    since the epoch; [Before] and [After] compare instants. *)

Module time.

Definition Time : Type := Z.

Definition Before (t u : Time) : bool := t <? u.
Definition After (t u : Time) : bool := u <? t.

End time.

(** ** errors and the [error] interface

    [errors.New] allocates a fresh [errorString] object and returns a
    pointer to it; an [error] holding such a pointer is compared by the
    address, never by the text. *)

Module errors.

Definition ptr : Type := nat.

(** The objects allocated so far, addressed by position. *)
Definition Heap : Type := list string.

Definition New (text : string) (h : Heap) : ptr * Heap :=
  (length h, h ++ [text]).

End errors.

(** [ValidationError] (errors file of the package). *)
Record ValidationError : Type := mkValidationError {
  Field : string;
  Reason : string
}.

Definition ValidationError_Error (e : ValidationError) : string :=
  ("validation failed for " ++ Field e ++ ": " ++ Reason e)%string.

(** The dynamic types of the [error] values that the functions below
    return: a pointer to an [errorString], or one of the errors of
    [uuid.Parse]. *)
Inductive error : Type :=
| errorString (p : errors.ptr)
| uuidError (e : uuid.parse_error).

#[global] Instance parse_error_eq_dec : EqDecision uuid.parse_error.
Proof. solve_decision. Defined.

#[global] Instance error_eq_dec : EqDecision error.
Proof. solve_decision. Defined.

(** [err1 == err2] on interface values: the same dynamic type and, for
    [*errors.errorString], the same address.  The text of the message is
    not an argument of the comparison.  (The errors of [uuid.Parse] are
    not given addresses here; they are never compared by the code and
    always differ from a sentinel.) *)
Definition error_eqb (e1 e2 : error) : bool :=
  match e1, e2 with
  | errorString p, errorString q => Nat.eqb p q
  | uuidError a, uuidError b => bool_decide (a = b)
  | _, _ => false
  end.

(** The package-level [var] block: five calls of [errors.New], in
    source order, when the package is initialised. *)
Record Sentinels : Type := mkSentinels {
  sentTaskNotFound : error;
  sentInvalidStatus : error;
  sentInvalidStateTransition : error;
  sentEmptyTitle : error;
  sentDuplicateTaskID : error
}.

Definition init_errors (h : errors.Heap) : Sentinels * errors.Heap :=
  let '(p1, h) := errors.New "task not found" h in
  let '(p2, h) := errors.New "invalid task status" h in
  let '(p3, h) := errors.New "invalid state transition" h in
  let '(p4, h) := errors.New "task title cannot be empty" h in
  let '(p5, h) := errors.New "task with this ID already exists" h in
  (mkSentinels (errorString p1) (errorString p2) (errorString p3)
               (errorString p4) (errorString p5), h).

(** The heap the package is initialised on.  Nothing below depends on
    its contents: see [init_errors_distinct]. *)
Definition boot_heap : errors.Heap := [].

Definition ErrTaskNotFound : error := sentTaskNotFound (fst (init_errors boot_heap)).
Definition ErrInvalidStatus : error := sentInvalidStatus (fst (init_errors boot_heap)).
Definition ErrInvalidStateTransition : error :=
  sentInvalidStateTransition (fst (init_errors boot_heap)).
Definition ErrEmptyTitle : error := sentEmptyTitle (fst (init_errors boot_heap)).
Definition ErrDuplicateTaskID : error := sentDuplicateTaskID (fst (init_errors boot_heap)).

(** [err.Error()] for a sentinel: the text stored at its address. *)
Definition errorString_Error (h : errors.Heap) (e : error) : option string :=
  match e with
  | errorString p => h !! p
  | _ => None
  end.

(** ** The world a call runs in: the wall clock and the random source. *)

Record World : Type := mkWorld {
  wall_clock : time.Time;
  random : rand.Reader
}.

(** Effectful functions thread the world. *)
Definition IO (A : Type) : Type := World -> A * World.

Definition ret {A} (a : A) : IO A := fun w => (a, w).
Definition bind {A B} (m : IO A) (k : A -> IO B) : IO B :=
  fun w => let '(a, w') := m w in k a w'.

Notation "'do' x <- m ; k" := (bind m (fun x => k))
  (at level 10, x name, m at level 100, k at level 200).

(** [time.Now()] *)
Definition time_Now : IO time.Time := fun w => (wall_clock w, w).

(** [uuid.New()] *)
Definition uuid_New : IO uuid.UUID :=
  fun w => let '(u, r) := uuid.New (random w) in
           (u, {| wall_clock := wall_clock w; random := r |}).

(** ** task_status.go *)

Definition TaskStatus : Type := string.

Definition StatusPool : TaskStatus := "pool".
Definition StatusToday : TaskStatus := "today".
Definition StatusDone : TaskStatus := "done".

Module task_status.

Definition Valid (s : TaskStatus) : bool :=
  if String.eqb s StatusPool || String.eqb s StatusToday || String.eqb s StatusDone
  then true
  else false.

Definition String (s : TaskStatus) : string := s.

End task_status.

(** ** task_id.go *)

Definition TaskID : Type := uuid.UUID.

Module task_id.

Definition String (t : TaskID) : string := uuid.String t.

Definition NewTaskID : IO TaskID := uuid_New.

Definition ParseTaskID (id : string) : TaskID * option error :=
  let '(uid, err) := uuid.Parse id in
  match err with
  | Some e => (uuid.Nil, Some (uuidError e))
  | None => (uid, None)
  end.

Definition IsEmpty (t : TaskID) : bool := uuid.eqb t uuid.Nil.

Definition Equals (t other : TaskID) : bool := uuid.eqb t other.

Definition NotEquals (t other : TaskID) : bool := negb (uuid.eqb t other).

End task_id.

(** ** task.go *)

Module task.

Record Task : Type := mkTask {
ID : TaskID;
CreatedAt : time.Time;
Title : string;
Notes : string;
Status : TaskStatus;
Tags : slice.t string;
DueDate : option time.Time;
CompletedAt : option time.Time;
DeferredCount : Z
}.

Definition NewTask (title : string) (tags : slice.t string)
: IO (option Task * option error) :=
let trimmedTitle := gostrings.TrimSpace title in
if String.eqb trimmedTitle "" then ret (None, Some ErrEmptyTitle)
else
  do id <- task_id.NewTaskID;
  let taskTags := if 0 <? slice.len tags then slice.clone tags else None in
  do now <- time_Now;
  ret (Some {| ID := id;
               CreatedAt := now;
               Title := trimmedTitle;
               Notes := "";
               Status := StatusPool;
               Tags := taskTags;
               DueDate := None;
               CompletedAt := None;
               DeferredCount := 0 |},
       None).

End task.

(** ** task_filter.go *)

Module task_filter.

Record TaskFilter : Type := mkTaskFilter {
  Status : option TaskStatus;
  Tags : slice.t string;
  DueAfter : option time.Time;
  DueBefore : option time.Time;
  Limit : Z
}.

(** [tagSet[tag]]: a missing key reads as the zero value [false]. *)
Definition map_index (m : gmap string bool) (k : string) : bool :=
  default false (m !! k).

(** [for _, tag := range taskTags { tagSet[tag] = true }] *)
Definition build_tagSet (taskTags : list string) : gmap string bool :=
  foldl (fun m tag => <[tag := true]> m) ∅ taskTags.

(** [for _, requiredTag := range filterTags
       { if !tagSet[requiredTag] { return false } }; return true] *)
Fixpoint all_required (tagSet : gmap string bool) (filterTags : list string) : bool :=
  match filterTags with
  | [] => true
  | requiredTag :: rest =>
      if negb (map_index tagSet requiredTag) then false
      else all_required tagSet rest
  end.

Definition containsAllTags (taskTags filterTags : slice.t string) : bool :=
  if slice.len filterTags =? 0 then true
  else
    let tagSet := build_tagSet (slice.elems taskTags) in
    all_required tagSet (slice.elems filterTags).

Definition Matches (f : TaskFilter) (t : task.Task) : bool :=
  if match Status f with
     | Some s => negb (String.eqb (task.Status t) s)
     | None => false
     end
  then false
  else if (0 <? slice.len (Tags f))
          && negb (containsAllTags (task.Tags t) (Tags f))
  then false
  else if match DueAfter f with
          | Some after =>
              match task.DueDate t with
              | None => true
              | Some d => time.Before d after
              end
          | None => false
          end
  then false
  else if match DueBefore f with
          | Some before =>
              match task.DueDate t with
              | None => true
              | Some d => time.After d before
              end
          | None => false
          end
  then false
  else true.

End task_filter.

(** ** Transition methods of [Task] *)

Module transitions.

Import task.

Definition with_status (t : Task) (s : TaskStatus) : Task :=
  {| ID := ID t; CreatedAt := CreatedAt t; Title := Title t; Notes := Notes t;
     Status := s; Tags := Tags t; DueDate := DueDate t;
     CompletedAt := CompletedAt t; DeferredCount := DeferredCount t |}.

(** Modelled from the spec: the method [Pick] of [Task], which [task.go]
    announces but does not define.  Section 4.1: pool goes to today;
    today stays today (a no-op); a done task is rejected with the
    invalid-state-transition error and is not changed.  The spec gives no
    rule for a status outside the enumeration; such a task is rejected
    unchanged as well. *)
Definition Pick (t : Task) : Task * option error :=
  if String.eqb (Status t) StatusPool then (with_status t StatusToday, None)
  else if String.eqb (Status t) StatusToday then (t, None)
  else (t, Some ErrInvalidStateTransition).

(** Modelled from the spec: the method [Defer] of [Task], absent from
    [task.go].  Section 4.1: today goes to pool and the deferral counter
    grows by exactly one; pool stays pool with no increment; a done task
    is rejected and is not changed. *)
Definition Defer (t : Task) : Task * option error :=
  if String.eqb (Status t) StatusToday then
    ({| ID := ID t; CreatedAt := CreatedAt t; Title := Title t; Notes := Notes t;
        Status := StatusPool; Tags := Tags t; DueDate := DueDate t;
        CompletedAt := CompletedAt t; DeferredCount := DeferredCount t + 1 |}, None)
  else if String.eqb (Status t) StatusPool then (t, None)
  else (t, Some ErrInvalidStateTransition).

(** Modelled from the spec: the method [Complete] of [Task], absent from
    [task.go].  Section 4.1: any status other than done goes to done and
    the completion time is set to the current time; on a done task the
    call succeeds and does not overwrite the completion time. *)
Definition Complete (t : Task) : IO (Task * option error) :=
  if String.eqb (Status t) StatusDone then ret (t, None)
  else
    do now <- time_Now;
    ret ({| ID := ID t; CreatedAt := CreatedAt t; Title := Title t; Notes := Notes t;
            Status := StatusDone; Tags := Tags t; DueDate := DueDate t;
            CompletedAt := Some now; DeferredCount := DeferredCount t |}, None).

End transitions.

(** * Vocabulary of the statements *)

(** The number an identifier denotes: its sixteen bytes read big-endian. *)
Fixpoint be_value (l : list byte) : Z :=
  match l with
  | [] => 0
  | b :: rest => Z.of_N (Byte.to_N b) * 256 ^ Z.of_nat (length rest) + be_value rest
  end.

Definition uuid_value (u : uuid.UUID) : Z := be_value (vec_to_list u).

Definition sentinel_list (s : Sentinels) : list error :=
  [sentTaskNotFound s; sentInvalidStatus s; sentInvalidStateTransition s;
   sentEmptyTitle s; sentDuplicateTaskID s].


(** The lower-case hexadecimal digit of a value below sixteen, and the
    two digits [hex.Encode] writes for a byte. *)
Definition hexdigit (n : byte) : byte :=
  u8.index uuid.hextable (N.to_nat (Byte.to_N n)).
Definition hi (b : byte) : byte := hexdigit (u8.shr b 4).
Definition lo (b : byte) : byte := hexdigit (u8.and b Byte.x0f).

Definition is_lower_hex (c : byte) : bool :=
  let n := Byte.to_N c in
  ((48 <=? n) && (n <=? 57) || (97 <=? n) && (n <=? 102))%N.

(** The canonical textual form of an identifier: 36 bytes, hyphens at
    positions 8, 13, 18 and 23, lower-case hexadecimal digits elsewhere. *)
Fixpoint canonical_from (i : nat) (bs : list byte) : bool :=
  match bs with
  | [] => true
  | c :: rest =>
      (if (i =? 8)%nat || (i =? 13)%nat || (i =? 18)%nat || (i =? 23)%nat
       then Byte.eqb c uuid.dash
       else is_lower_hex c)
      && canonical_from (S i) rest
  end.

Definition canonical (s : string) : bool :=
  let bs := list_byte_of_string s in
  (length bs =? 36)%nat && canonical_from 0 bs.

(** Grouping of 32 digits as 8-4-4-4-12. *)
Definition hyphenate (d : list byte) : list byte :=
  take 8 d ++ [uuid.dash] ++ take 4 (drop 8 d) ++ [uuid.dash]
  ++ take 4 (drop 12 d) ++ [uuid.dash] ++ take 4 (drop 16 d) ++ [uuid.dash]
  ++ drop 20 d.

(** The canonical form of an accepted string: the [urn:uuid:] prefix or
    the enclosing pair of bytes is removed, 32 bare digits are grouped,
    and letters are put in lower case. *)
Definition canonical_bytes (bs : list byte) : list byte :=
  let n := length bs in
  map uuid.lower
    (if (n =? 36 + 9)%nat then drop 9 bs
     else if (n =? 36 + 2)%nat then take 36 (drop 1 bs)
     else if (n =? 32)%nat then hyphenate bs
     else bs).

Definition canonical_form (s : string) : string :=
  string_of_list_byte (canonical_bytes (list_byte_of_string s)).

(** Concrete inputs on which the statements are exercised. *)
Definition sample_world : World :=
  {| wall_clock := 1762128000000000000;
     random := {| rand.supply := fun n => u8.of_N (N.of_nat (7 * n + 3)); rand.cursor := 5 |} |}.

Definition sample_done_task : task.Task :=
  {| task.ID := fst (task_id.NewTaskID sample_world);
     task.CreatedAt := 1762128000000000000;
     task.Title := "Buy milk";
     task.Notes := "";
     task.Status := StatusDone;
     task.Tags := None;
     task.DueDate := None;
     task.CompletedAt := Some 1762131600000000000;
     task.DeferredCount := 2 |}.


(** Trimming as the words have it, for text made of ASCII bytes: drop
    the white space at the front, then the white space at the back. *)
Fixpoint drop_spaces (s : list byte) : list byte :=
  match s with
  | [] => []
  | c :: rest => if gostrings.asciiSpace c then drop_spaces rest else s
  end.

Definition trim_ascii (s : list byte) : list byte :=
  reverse (drop_spaces (reverse (drop_spaces s))).

Definition ascii_only (s : list byte) : bool :=
  forallb (fun c => u8.ltb c utf8.RuneSelf) s.

(** A filter with one criterion of [f] and nothing else. *)
Definition only_status (f : task_filter.TaskFilter) : task_filter.TaskFilter :=
  task_filter.mkTaskFilter (task_filter.Status f) None None None 0.
Definition only_tags (f : task_filter.TaskFilter) : task_filter.TaskFilter :=
  task_filter.mkTaskFilter None (task_filter.Tags f) None None 0.
Definition only_after (f : task_filter.TaskFilter) : task_filter.TaskFilter :=
  task_filter.mkTaskFilter None None (task_filter.DueAfter f) None 0.
Definition only_before (f : task_filter.TaskFilter) : task_filter.TaskFilter :=
  task_filter.mkTaskFilter None None None (task_filter.DueBefore f) 0.

(** A task that carries no tag and no due date, with a given status. *)
Definition bare_task (st : TaskStatus) : task.Task :=
  {| task.ID := uuid.Nil; task.CreatedAt := 0; task.Title := "x"; task.Notes := "";
     task.Status := st; task.Tags := None; task.DueDate := None;
     task.CompletedAt := None; task.DeferredCount := 0 |}.


(** ** Slices in memory

    To speak of sharing, a slice is taken as Go has it: a header (array,
    offset, length) into a store of backing arrays, [nil] being the
    header-less slice.  Arrays are addressed by their position in the
    store. *)

Module mem.

Abbreviation loc := nat (only parsing).

Abbreviation Store := (list (list string)) (only parsing).

Record header : Type := mkHeader { arr : loc; off : nat; size : nat }.

Definition Slice : Type := option header.

Definition len (s : Slice) : Z :=
  match s with
  | Some h => Z.of_nat (size h)
  | None => 0
  end.

Definition array (m : Store) (l : loc) : list string := default [] (m !! l).

(** The elements seen through a slice. *)
Definition read (m : Store) (s : Slice) : list string :=
  match s with
  | Some h => take (size h) (drop (off h) (array m (arr h)))
  | None => []
  end.

(** A header is sound in a store when its array exists and holds the
    window the header describes. *)
Definition wf (m : Store) (s : Slice) : Prop :=
  match s with
  | Some h => (arr h < length m)%nat /\ (off h + size h <= length (array m (arr h)))%nat
  | None => True
  end.

(** [make([]string, n)]: a new array of [n] empty strings. *)
Definition make (n : nat) (m : Store) : Slice * Store :=
  (Some (mkHeader (length m) 0%nat n), m ++ [replicate n ""%string]).

(** [copy(dst, src)]: the first [min(len(dst), len(src))] elements of
    [src] are written over those of [dst]. *)
Definition copy (dst src : Slice) (m : Store) : Store :=
  match dst, src with
  | Some d, Some _ =>
      let data := take (size d) (read m src) in
      let old := array m (arr d) in
      <[arr d := take (off d) old ++ data ++ drop (off d + length data) old]> m
  | _, _ => m
  end.

(** [s[i] = v]; [None] when the index is out of range (a panic). *)
Definition set (s : Slice) (i : nat) (v : string) (m : Store) : option Store :=
  match s with
  | Some h =>
      if (i <? size h)%nat
      then Some (<[arr h := <[(off h + i)%nat := v]> (array m (arr h))]> m)
      else None
  | None => None
  end.

(** The value a slice stands for in the store-free model. *)
Definition abs (m : Store) (s : Slice) : slice.t string :=
  match s with
  | Some _ => Some (read m s)
  | None => None
  end.

End mem.

(** The statements of [NewTask] that build [taskTags], on slices in
    memory:
    [var taskTags []string;
     if len(tags) > 0 { taskTags = make([]string, len(tags)); copy(taskTags, tags) }] *)
Definition NewTask_taskTags (tags : mem.Slice) (m : mem.Store) : mem.Slice * mem.Store :=
  if 0 <? mem.len tags then
    let '(taskTags, m) := mem.make (Z.to_nat (mem.len tags)) m in
    (taskTags, mem.copy taskTags tags m)
  else (None, m).

Definition sample_store : mem.Store := [["tag1"; "tag2"]%string].
Definition sample_tags : mem.Slice := Some (mem.mkHeader 0%nat 0%nat 2%nat).

(** Letters of a string put in lower case, byte by byte (ASCII). *)
Definition lower_string (s : string) : string :=
  string_of_list_byte (map uuid.lower (list_byte_of_string s)).

(** A random source whose first two blocks of sixteen bytes differ. *)
Definition counting_world : World :=
  {| wall_clock := 0;
     random := {| rand.supply := fun n => u8.of_N (N.of_nat n); rand.cursor := 0 |} |}.

(** Whether a string contains a colon. *)
Fixpoint has_colon (s : string) : bool :=
  match s with
  | EmptyString => false
  | String c rest => Ascii.eqb c ":" || has_colon rest
  end.

(** The texts of the five sentinels, in the order of their declaration. *)
Definition sentinel_texts : list string :=
  ["task not found"; "invalid task status"; "invalid state transition";
   "task title cannot be empty"; "task with this ID already exists"]%string.
(** * Properties *)

(** ** Bytes and identifiers *)

Lemma byte_eqb_eq (a b : byte) : Byte.eqb a b = true <-> a = b.
Proof.
  split; [apply Byte.byte_dec_bl | apply Byte.byte_dec_lb].
Qed.

Lemma uuid_eqb_lists (l1 l2 : list byte) :
  length l1 = length l2 ->
  forallb (fun p => Byte.eqb (fst p) (snd p)) (zip l1 l2) = true <-> l1 = l2.
Proof.
  revert l2. induction l1 as [|a l1 IH]; intros [|b l2] Hlen; simpl in *; try lia.
  - split; auto.
  - rewrite andb_true_iff, byte_eqb_eq, IH by lia.
    split; [intros [-> ->]; reflexivity | intros [= -> ->]; auto].
Qed.

Lemma uuid_eqb_eq (a b : uuid.UUID) : uuid.eqb a b = true <-> a = b.
Proof.
  unfold uuid.eqb. rewrite uuid_eqb_lists by (rewrite !length_vec_to_list; reflexivity).
  split; [apply vec_to_list_inj2 | intros ->; reflexivity].
Qed.

Lemma byte_range (b : byte) : 0 <= Z.of_N (Byte.to_N b) < 256.
Proof. pose proof (Byte.to_N_bounded b). lia. Qed.

Lemma be_value_range (l : list byte) : 0 <= be_value l < 256 ^ Z.of_nat (length l).
Proof.
  induction l as [|b l IH]; simpl be_value; simpl length.
  - simpl. lia.
  - rewrite Nat2Z.inj_succ, Z.pow_succ_r by lia.
    pose proof (byte_range b). nia.
Qed.

Lemma byte_to_N_inj (a b : byte) : Byte.to_N a = Byte.to_N b -> a = b.
Proof.
  intros H. pose proof (Byte.of_to_N a) as Ha. rewrite H, Byte.of_to_N in Ha.
  congruence.
Qed.

Lemma be_value_inj (l1 l2 : list byte) :
  length l1 = length l2 -> be_value l1 = be_value l2 -> l1 = l2.
Proof.
  revert l2. induction l1 as [|a l1 IH]; intros [|b l2] Hlen Hv; simpl in Hlen; try lia.
  - reflexivity.
  - simpl be_value in Hv.
    assert (Hl : length l1 = length l2) by lia. rewrite Hl in Hv.
    pose proof (be_value_range l1) as R1. pose proof (be_value_range l2) as R2.
    rewrite Hl in R1.
    pose proof (byte_range a). pose proof (byte_range b).
    set (P := 256 ^ Z.of_nat (length l2)) in *.
    assert (Z.of_N (Byte.to_N a) = Z.of_N (Byte.to_N b)) by nia.
    assert (be_value l1 = be_value l2) by nia.
    f_equal; [apply byte_to_N_inj; lia | apply IH; assumption].
Qed.

Lemma uuid_value_inj (a b : uuid.UUID) : uuid_value a = uuid_value b -> a = b.
Proof.
  intros H. apply vec_to_list_inj2, be_value_inj; [|exact H].
  rewrite !length_vec_to_list. reflexivity.
Qed.

Lemma uuid_value_range (a : uuid.UUID) : 0 <= uuid_value a < 2 ^ 128.
Proof.
  unfold uuid_value. pose proof (be_value_range (vec_to_list a)) as H.
  rewrite length_vec_to_list in H. exact H.
Qed.

(** C8.  Identifier equality is value equality: [Equals] holds exactly
    when the two identifiers are the same sixteen bytes, that is, denote
    the same 128-bit number; [NotEquals] is the negation of [Equals]; and
    [IsEmpty] holds exactly for the all-zero identifier, the one whose
    value is 0. *)
Theorem TaskID_equality_is_value_equality (a b : TaskID) :
  (task_id.Equals a b = true <-> a = b)
  /\ (task_id.Equals a b = true <-> uuid_value a = uuid_value b)
  /\ 0 <= uuid_value a < 2 ^ 128
  /\ task_id.NotEquals a b = negb (task_id.Equals a b)
  /\ (task_id.IsEmpty a = true <-> a = uuid.Nil)
  /\ (task_id.IsEmpty a = true <-> uuid_value a = 0)
  /\ (task_id.IsEmpty a = true <->
      Forall (fun x => x = Byte.x00) (vec_to_list a)).
Proof.
  unfold task_id.Equals, task_id.NotEquals, task_id.IsEmpty.
  repeat split; try (apply uuid_eqb_eq); try (apply uuid_value_range).
  - intros H. apply uuid_eqb_eq in H. subst. reflexivity.
  - intros H. apply uuid_eqb_eq, uuid_value_inj, H.
  - intros H. apply uuid_eqb_eq in H. subst. reflexivity.
  - intros H. apply uuid_eqb_eq, uuid_value_inj. rewrite H. reflexivity.
  - intros H. apply uuid_eqb_eq in H. subst. vm_compute. repeat constructor.
  - intros H. apply uuid_eqb_eq, vec_to_list_inj2.
    pose proof (length_vec_to_list a) as Hlen.
    unfold uuid.Nil. rewrite vec_to_list_replicate.
    revert H Hlen. generalize (vec_to_list a). intros l H Hlen.
    rewrite <- Hlen. clear Hlen.
    induction H as [|x l -> _ IH]; simpl; [reflexivity | f_equal; exact IH].
Qed.

(** ** Status *)

(** C4.  [Valid] accepts exactly the three strings ["pool"], ["today"]
    and ["done"]; the empty string and upper-case or padded variants are
    rejected. *)
Theorem TaskStatus_Valid_iff (s : TaskStatus) :
  (task_status.Valid s = true <->
   s = "pool"%string \/ s = "today"%string \/ s = "done"%string)
  /\ task_status.Valid ""%string = false
  /\ task_status.Valid "POOL"%string = false
  /\ task_status.Valid "Today"%string = false
  /\ task_status.Valid " pool"%string = false
  /\ task_status.Valid "done "%string = false.
Proof.
  split; [|repeat split; reflexivity].
  unfold task_status.Valid, StatusPool, StatusToday, StatusDone.
  destruct (String.eqb_spec s "pool") as [->|Hp]; simpl; [tauto|].
  destruct (String.eqb_spec s "today") as [->|Ht]; simpl; [tauto|].
  destruct (String.eqb_spec s "done") as [->|Hd]; simpl; [tauto|].
  split; [discriminate | intros [?|[?|?]]; contradiction].
Qed.

(** ** Sentinel errors *)

Lemma error_eqb_eq (e1 e2 : error) : error_eqb e1 e2 = true <-> e1 = e2.
Proof.
  destruct e1 as [p|a], e2 as [q|b]; simpl; try (split; discriminate).
  - rewrite Nat.eqb_eq. split; [intros ->; reflexivity | intros [= ->]; reflexivity].
  - rewrite bool_decide_eq_true. split; [intros ->; reflexivity | intros [= ->]; reflexivity].
Qed.

(** Whatever has been allocated before the package is initialised, the
    five calls of [errors.New] return five different addresses. *)
Lemma init_errors_distinct (h : errors.Heap) :
  NoDup (sentinel_list (fst (init_errors h))).
Proof.
  unfold init_errors, errors.New, sentinel_list. simpl.
  rewrite !length_app. simpl.
  repeat (apply NoDup_cons; split;
          [rewrite ?elem_of_cons, elem_of_nil; intros H;
           repeat (destruct H as [H|H]; [injection H; lia|]); exact H|]).
  apply NoDup_nil_2.
Qed.

(** C7.  The five sentinel errors are pairwise distinct values: no two
    of them are equal, the comparison [==] tells any two apart, and it
    does so on the addresses alone.  This does not depend on what was
    allocated before the package was initialised. *)
Theorem domain_errors_pairwise_distinct :
  let sentinels := [ErrTaskNotFound; ErrInvalidStatus; ErrInvalidStateTransition;
                    ErrEmptyTitle; ErrDuplicateTaskID] in
  NoDup sentinels
  /\ (forall i j e1 e2, sentinels !! i = Some e1 -> sentinels !! j = Some e2 ->
        error_eqb e1 e2 = bool_decide (i = j))
  /\ (forall h, NoDup (sentinel_list (fst (init_errors h)))).
Proof.
  intros sentinels.
  assert (Hnd : NoDup sentinels) by apply (init_errors_distinct boot_heap).
  split; [exact Hnd|]. split; [|apply init_errors_distinct].
  intros i j e1 e2 Hi Hj.
  destruct (error_eqb e1 e2) eqn:E.
  - apply error_eqb_eq in E. subst e2. symmetry. apply bool_decide_eq_true.
    eapply NoDup_lookup; eauto.
  - symmetry. apply bool_decide_eq_false. intros ->.
    rewrite Hi in Hj. injection Hj as ->.
    assert (error_eqb e2 e2 = true) by (apply error_eqb_eq; reflexivity). congruence.
Qed.

(** ** The filter *)

Lemma build_tagSet_lookup (l : list string) (m : gmap string bool) (k : string) :
  task_filter.map_index (foldl (fun m tag => <[tag := true]> m) m l) k = true
  <-> k ∈ l \/ task_filter.map_index m k = true.
Proof.
  revert m. induction l as [|x l IH]; intros m; simpl.
  - rewrite elem_of_nil. tauto.
  - rewrite IH, elem_of_cons. unfold task_filter.map_index.
    destruct (decide (x = k)) as [->|Hne].
    + rewrite lookup_insert_eq. simpl. tauto.
    + rewrite lookup_insert_ne by exact Hne.
      split; [intros [?|?]; auto | intros [[?|?]|?]; auto].
Qed.

Lemma tagSet_spec (l : list string) (k : string) :
  task_filter.map_index (task_filter.build_tagSet l) k = true <-> k ∈ l.
Proof.
  unfold task_filter.build_tagSet. rewrite build_tagSet_lookup.
  unfold task_filter.map_index. rewrite lookup_empty. simpl.
  split; [intros [?|?]; [assumption | discriminate] | auto].
Qed.

Lemma all_required_spec (m : gmap string bool) (req : list string) :
  task_filter.all_required m req = true
  <-> forall tag, tag ∈ req -> task_filter.map_index m tag = true.
Proof.
  induction req as [|r req IH]; simpl.
  - split; [intros _ tag H; inversion H | reflexivity].
  - destruct (task_filter.map_index m r) eqn:E; simpl.
    + rewrite IH. split.
      * intros H tag Hin. apply elem_of_cons in Hin as [->|Hin]; auto.
      * intros H tag Hin. apply H. apply elem_of_cons. auto.
    + split; [discriminate|]. intros H.
      rewrite <- E. apply H. apply elem_of_cons. auto.
Qed.

Lemma containsAllTags_spec (taskTags filterTags : slice.t string) :
  task_filter.containsAllTags taskTags filterTags = true
  <-> forall tag, tag ∈ slice.elems filterTags -> tag ∈ slice.elems taskTags.
Proof.
  unfold task_filter.containsAllTags, slice.len.
  destruct (slice.elems filterTags) as [|r req] eqn:E.
  - simpl. split; [intros _ tag H; inversion H | reflexivity].
  - replace (Z.of_nat (length (r :: req)) =? 0) with false
      by (symmetry; apply Z.eqb_neq; simpl length; lia).
    rewrite all_required_spec. setoid_rewrite tagSet_spec. reflexivity.
Qed.

Lemma slice_len_pos {A} (s : slice.t A) :
  (0 <? slice.len s) = false <-> s = None \/ s = Some [].
Proof.
  unfold slice.len, slice.elems. destruct s as [[|x l]|]; simpl.
  - split; auto.
  - split; [discriminate | intros [?|?]; discriminate].
  - split; auto.
Qed.

Lemma status_guard (fs : option TaskStatus) (st : TaskStatus) :
  match fs with Some s => negb (String.eqb st s) | None => false end = false
  <-> fs = None \/ fs = Some st.
Proof.
  destruct fs as [s|]; [|split; auto].
  destruct (String.eqb_spec st s) as [->|Hne]; simpl.
  - split; auto.
  - split; [discriminate | intros [?|?]; congruence].
Qed.

Lemma tags_guard (taskTags filterTags : slice.t string) :
  (0 <? slice.len filterTags) && negb (task_filter.containsAllTags taskTags filterTags)
  = false
  <-> filterTags = None \/ filterTags = Some []
      \/ forall tag, tag ∈ slice.elems filterTags -> tag ∈ slice.elems taskTags.
Proof.
  rewrite andb_false_iff, negb_false_iff, slice_len_pos, containsAllTags_spec.
  tauto.
Qed.

Lemma after_guard (fa dd : option time.Time) :
  match fa with
  | Some after => match dd with None => true | Some d => time.Before d after end
  | None => false
  end = false
  <-> forall after, fa = Some after -> exists d, dd = Some d /\ after <= d.
Proof.
  unfold time.Before.
  destruct fa as [a|]; [|split; [intros _ ? [=] | reflexivity]].
  destruct dd as [d|].
  - rewrite Z.ltb_ge. split.
    + intros H ? [= <-]. exists d. auto.
    + intros H. destruct (H a eq_refl) as [d' [[= <-] Hle]]. exact Hle.
  - split; [discriminate|]. intros H. destruct (H a eq_refl) as [d' [[=] _]].
Qed.

Lemma before_guard (fb dd : option time.Time) :
  match fb with
  | Some before => match dd with None => true | Some d => time.After d before end
  | None => false
  end = false
  <-> forall before, fb = Some before -> exists d, dd = Some d /\ d <= before.
Proof.
  unfold time.After.
  destruct fb as [b|]; [|split; [intros _ ? [=] | reflexivity]].
  destruct dd as [d|].
  - rewrite Z.ltb_ge. split.
    + intros H ? [= <-]. exists d. auto.
    + intros H. destruct (H b eq_refl) as [d' [[= <-] Hle]]. exact Hle.
  - split; [discriminate|]. intros H. destruct (H b eq_refl) as [d' [[=] _]].
Qed.

Lemma fail_fast (g1 g2 g3 g4 : bool) :
  (if g1 then false else if g2 then false else if g3 then false
   else if g4 then false else true) = true
  <-> g1 = false /\ g2 = false /\ g3 = false /\ g4 = false.
Proof. destruct g1, g2, g3, g4; simpl; intuition discriminate. Qed.

(** C1.  [Matches] returns true exactly when the three criteria hold:
    the filter's status is unset or equal to the task's; the filter's tag
    list is nil or empty, or each of its tags occurs among the task's;
    and for each bound that is set the task has a due date on the right
    side of it, bounds included (so a task without a due date is rejected
    as soon as one bound is set). *)
Theorem Matches_iff_all_criteria (f : task_filter.TaskFilter) (t : task.Task) :
  task_filter.Matches f t = true
  <->
  (task_filter.Status f = None \/ task_filter.Status f = Some (task.Status t))
  /\ (task_filter.Tags f = None \/ task_filter.Tags f = Some []
      \/ forall tag, tag ∈ slice.elems (task_filter.Tags f) ->
                     tag ∈ slice.elems (task.Tags t))
  /\ (forall after, task_filter.DueAfter f = Some after ->
        exists d, task.DueDate t = Some d /\ after <= d)
  /\ (forall before, task_filter.DueBefore f = Some before ->
        exists d, task.DueDate t = Some d /\ d <= before).
Proof.
  unfold task_filter.Matches.
  rewrite fail_fast, status_guard, tags_guard, after_guard, before_guard.
  reflexivity.
Qed.

(** C6.  The result-count cap does not take part in matching: two
    filters that differ in [Limit] only give the same answer on every
    task. *)
Theorem Matches_ignores_Limit
  (status : option TaskStatus) (tags : slice.t string)
  (dueAfter dueBefore : option time.Time) (a b : Z) (t : task.Task) :
  task_filter.Matches (task_filter.mkTaskFilter status tags dueAfter dueBefore a) t
  = task_filter.Matches (task_filter.mkTaskFilter status tags dueAfter dueBefore b) t.
Proof. reflexivity. Qed.

(** ** Rendering and parsing identifiers *)

Lemma xtob_hex (b : byte) : uuid.xtob (hi b) (lo b) = (b, true).
Proof. destruct b; vm_compute; reflexivity. Qed.

Lemma hex_digits_lower (b : byte) : is_lower_hex (hi b) = true /\ is_lower_hex (lo b) = true.
Proof. destruct b; split; reflexivity. Qed.

Lemma encodeHex_unfold (b0 b1 b2 b3 b4 b5 b6 b7 b8 b9 b10 b11 b12 b13 b14 b15 : byte) :
  uuid.encodeHex [# b0; b1; b2; b3; b4; b5; b6; b7; b8; b9; b10; b11; b12; b13; b14; b15]
  = [hi b0; lo b0; hi b1; lo b1; hi b2; lo b2; hi b3; lo b3; uuid.dash;
     hi b4; lo b4; hi b5; lo b5; uuid.dash;
     hi b6; lo b6; hi b7; lo b7; uuid.dash;
     hi b8; lo b8; hi b9; lo b9; uuid.dash;
     hi b10; lo b10; hi b11; lo b11; hi b12; lo b12; hi b13; lo b13;
     hi b14; lo b14; hi b15; lo b15].
Proof. reflexivity. Qed.

(** Parsing the rendering of an identifier gives the identifier back. *)
Lemma Parse_String (u : uuid.UUID) : uuid.Parse (uuid.String u) = (u, None).
Proof.
  inv_vec u. intros.
  unfold uuid.String, uuid.Parse.
  rewrite list_byte_of_string_of_list_byte, encodeHex_unfold.
  cbn -[uuid.xtob hi lo].
  rewrite !xtob_hex. reflexivity.
Qed.

Lemma String_canonical (u : uuid.UUID) : canonical (uuid.String u) = true.
Proof.
  inv_vec u. intros.
  unfold canonical, uuid.String.
  rewrite list_byte_of_string_of_list_byte, encodeHex_unfold.
  cbn -[is_lower_hex hi lo].
  repeat match goal with
         | |- context [is_lower_hex (hi ?b)] =>
             rewrite (proj1 (hex_digits_lower b))
         | |- context [is_lower_hex (lo ?b)] =>
             rewrite (proj2 (hex_digits_lower b))
         end.
  reflexivity.
Qed.

Lemma xvalues_digit (c : byte) :
  uuid.xvalues c <> Byte.xff ->
  u8.ltb (uuid.xvalues c) Byte.x10 = true /\ hexdigit (uuid.xvalues c) = uuid.lower c.
Proof.
  destruct c; intros H; try (exfalso; apply H; reflexivity); split; reflexivity.
Qed.

Lemma nibbles (a b : byte) :
  u8.ltb a Byte.x10 = true -> u8.ltb b Byte.x10 = true ->
  u8.shr (u8.or (u8.shl a 4) b) 4 = a /\ u8.and (u8.or (u8.shl a 4) b) Byte.x0f = b.
Proof.
  intros Ha Hb.
  destruct a; try discriminate Ha; destruct b; try discriminate Hb; split; reflexivity.
Qed.

(** A pair of digits that [xtob] accepts is, up to the case of letters,
    the pair [hex.Encode] writes for the decoded byte. *)
Lemma xtob_canonical (c1 c2 v : byte) :
  uuid.xtob c1 c2 = (v, true) -> hi v = uuid.lower c1 /\ lo v = uuid.lower c2.
Proof.
  unfold uuid.xtob. intros [= <- H].
  apply andb_true_iff in H as [H1 H2].
  apply negb_true_iff in H1, H2.
  apply Byte.eqb_false in H1, H2.
  destruct (xvalues_digit c1 H1) as [L1 D1], (xvalues_digit c2 H2) as [L2 D2].
  destruct (nibbles _ _ L1 L2) as [N1 N2].
  unfold hi, lo. rewrite N1, N2. auto.
Qed.

(** A list of known length, as its elements. *)
Ltac explode l H :=
  repeat (destruct l as [|? l]; [discriminate H|]);
  destruct l; [clear H | discriminate H].

(** One run through the checks of [Parse] on a string given by its
    bytes: every test that would return an error is refuted by [H]. *)
Ltac step_parse H :=
  repeat match type of H with
  | context [uuid.EqualFold_urn ?p] =>
      destruct (uuid.EqualFold_urn p); [|discriminate H];
      cbn -[uuid.xtob uuid.EqualFold_urn] in H
  end;
  repeat match type of H with
  | context [Byte.eqb ?c ?d] =>
      let E := fresh "E" in
      destruct (Byte.eqb c d) eqn:E;
      [apply byte_eqb_eq in E; subst c | discriminate H];
      cbn -[uuid.xtob] in H
  end;
  repeat match type of H with
  | context [uuid.xtob ?a ?b] =>
      let v := fresh "v" in
      let E := fresh "X" in
      destruct (uuid.xtob a b) as [v [|]] eqn:E; [|discriminate H];
      apply xtob_canonical in E; destruct E as [? ?];
      cbn -[uuid.xtob] in H
  end.

Ltac finish_parse H :=
  injection H as <-; rewrite encodeHex_unfold;
  repeat match goal with
         | E : _ = uuid.lower _ |- _ => rewrite E; clear E
         end;
  reflexivity.

Lemma Parse_canonical_bytes (str : string) (u : uuid.UUID) :
  uuid.Parse str = (u, None) ->
  uuid.encodeHex u = canonical_bytes (list_byte_of_string str).
Proof.
  unfold uuid.Parse, canonical_bytes.
  generalize (list_byte_of_string str). intros bs.
  destruct (length bs =? 36)%nat eqn:L36.
  { apply Nat.eqb_eq in L36. explode bs L36.
    cbn -[uuid.xtob]. intros H. step_parse H. finish_parse H. }
  destruct (length bs =? 36 + 9)%nat eqn:L45.
  { apply Nat.eqb_eq in L45. explode bs L45.
    cbn -[uuid.xtob uuid.EqualFold_urn]. intros H. step_parse H. finish_parse H. }
  destruct (length bs =? 36 + 2)%nat eqn:L38.
  { apply Nat.eqb_eq in L38. explode bs L38.
    cbn -[uuid.xtob]. intros H. step_parse H. finish_parse H. }
  destruct (length bs =? 32)%nat eqn:L32.
  { apply Nat.eqb_eq in L32. explode bs L32.
    cbn -[uuid.xtob]. intros H. step_parse H. finish_parse H. }
  discriminate.
Qed.

Lemma ParseTaskID_ok (s : string) (u : TaskID) :
  task_id.ParseTaskID s = (u, None) <-> uuid.Parse s = (u, None).
Proof.
  unfold task_id.ParseTaskID. destruct (uuid.Parse s) as [uid [e|]].
  - split; discriminate.
  - split; intros [= ->]; reflexivity.
Qed.

(** C9.  Rendering then parsing gives back the identifier, and parsing
    then rendering gives the canonical form of the string that was
    parsed: for every identifier [t], [ParseTaskID (t.String())] succeeds
    with an identifier equal to [t]; and for every string [s] that
    [ParseTaskID] accepts with result [u], [u.String()] is the canonical
    form of [s], is in canonical shape, and parses back to [u]. *)
Theorem TaskID_render_parse_round_trip
  (t : TaskID) (s : string) (u : TaskID)
  (Hs : task_id.ParseTaskID s = (u, None)) :
  (task_id.ParseTaskID (task_id.String t) = (t, None)
   /\ task_id.Equals (fst (task_id.ParseTaskID (task_id.String t))) t = true)
  /\ task_id.String u = canonical_form s
  /\ canonical (task_id.String u) = true
  /\ task_id.ParseTaskID (task_id.String u) = (u, None).
Proof.
  assert (R : forall x : TaskID, task_id.ParseTaskID (task_id.String x) = (x, None)).
  { intros x. apply ParseTaskID_ok, Parse_String. }
  repeat split.
  - apply R.
  - rewrite R. apply uuid_eqb_eq. reflexivity.
  - apply ParseTaskID_ok in Hs. unfold task_id.String, uuid.String, canonical_form.
    f_equal. apply Parse_canonical_bytes, Hs.
  - apply String_canonical.
  - apply R.
Qed.

Lemma TaskID_render_parse_round_trip_witness :
  let s := "URN:UUID:550E8400-E29B-41d4-a716-446655440000"%string in
  let u := fst (task_id.ParseTaskID s) in
  task_id.ParseTaskID s = (u, None)
  /\ task_id.String u = "550e8400-e29b-41d4-a716-446655440000"%string
  /\ task_id.String u = canonical_form s.
Proof.
  intros s u.
  assert (Hs : task_id.ParseTaskID s = (u, None)) by (vm_compute; reflexivity).
  split; [exact Hs|]. split; [vm_compute; reflexivity|].
  exact (proj1 (proj2 (TaskID_render_parse_round_trip uuid.Nil s u Hs))).
Defined.

(** C10.  The all-zero string is accepted without error and gives the
    empty identifier. *)
Theorem ParseTaskID_accepts_all_zero :
  task_id.ParseTaskID "00000000-0000-0000-0000-000000000000" = (uuid.Nil, None)
  /\ snd (task_id.ParseTaskID "00000000-0000-0000-0000-000000000000") = None
  /\ task_id.IsEmpty (fst (task_id.ParseTaskID "00000000-0000-0000-0000-000000000000"))
     = true.
Proof. repeat split; vm_compute; reflexivity. Qed.

(** ** The task factory *)

Lemma version_byte_nonzero (b : byte) : u8.or (u8.and b Byte.x0f) Byte.x40 <> Byte.x00.
Proof. destruct b; discriminate. Qed.

Lemma version_nibble (b : byte) : u8.shr (u8.or (u8.and b Byte.x0f) Byte.x40) 4 = Byte.x04.
Proof. destruct b; reflexivity. Qed.

Lemma variant_bits (b : byte) : u8.shr (u8.or (u8.and b Byte.x3f) Byte.x80) 6 = Byte.x02.
Proof. destruct b; reflexivity. Qed.

(** What [NewTaskID] returns: the next sixteen bytes of the random
    source, with the version and variant bits set; the source has moved
    on by sixteen bytes; the identifier is never the empty one. *)
Lemma NewTaskID_fresh (w : World) :
  let id := fst (task_id.NewTaskID w) in
  let w' := snd (task_id.NewTaskID w) in
  (forall i : fin 16, i <> 6%fin -> i <> 8%fin ->
     id !!! i = rand.supply (random w) (rand.cursor (random w) + fin_to_nat i)%nat)
  /\ u8.shr (id !!! 6%fin) 4 = Byte.x04
  /\ u8.shr (id !!! 8%fin) 6 = Byte.x02
  /\ task_id.IsEmpty id = false
  /\ rand.cursor (random w') = (rand.cursor (random w) + 16)%nat
  /\ rand.supply (random w') = rand.supply (random w)
  /\ wall_clock w' = wall_clock w.
Proof.
  unfold task_id.NewTaskID, uuid_New, uuid.New, uuid.NewRandomFromReader, rand.ReadFull16.
  cbv zeta. cbn [fst snd wall_clock random rand.cursor rand.supply].
  change TaskID with (vec byte 16).
  set (raw := fun_to_vec _).
  assert (H6 : vinsert 8%fin (u8.or (u8.and (vinsert 6%fin (u8.or (u8.and (raw !!! 6%fin) Byte.x0f) Byte.x40) raw !!! 8%fin) Byte.x3f) Byte.x80)
                 (vinsert 6%fin (u8.or (u8.and (raw !!! 6%fin) Byte.x0f) Byte.x40) raw) !!! 6%fin
               = u8.or (u8.and (raw !!! 6%fin) Byte.x0f) Byte.x40).
  { rewrite vlookup_insert_ne by discriminate. apply vlookup_insert. }
  repeat split.
  - intros i Hi6 Hi8.
    rewrite !vlookup_insert_ne by (intros E; symmetry in E; contradiction).
    unfold raw. rewrite lookup_fun_to_vec. reflexivity.
  - rewrite H6. apply version_nibble.
  - rewrite vlookup_insert. apply variant_bits.
  - unfold task_id.IsEmpty.
    destruct (uuid.eqb _ uuid.Nil) eqn:E; [|reflexivity].
    apply uuid_eqb_eq in E. exfalso.
    pose proof (f_equal (fun v : vec byte 16 => v !!! 6%fin) E) as K.
    cbv beta in K. rewrite H6 in K.
    exact (version_byte_nonzero _ K).
Qed.

(** C2.  When the title does not trim to the empty string, [NewTask]
    succeeds: it returns a task and no error; the task has status
    [pool], the current time as creation time, empty notes, no due date,
    no completion time, a deferral count of 0, and the identifier that
    [NewTaskID] generates at that moment, which is not the empty
    identifier and is made of random bytes not used before. *)
Theorem NewTask_initial_fields
  (title : string) (tags : slice.t string) (w : World)
  (Htitle : gostrings.TrimSpace title <> ""%string) :
  exists t : task.Task,
    task.NewTask title tags w = ((Some t, None), snd (task_id.NewTaskID w))
    /\ task.Status t = StatusPool
    /\ task.CreatedAt t = wall_clock w
    /\ task.CreatedAt t = fst (time_Now (snd (task.NewTask title tags w)))
    /\ task.Notes t = ""%string
    /\ task.DueDate t = None
    /\ task.CompletedAt t = None
    /\ task.DeferredCount t = 0
    /\ task.ID t = fst (task_id.NewTaskID w)
    /\ task_id.IsEmpty (task.ID t) = false
    /\ (forall i : fin 16, i <> 6%fin -> i <> 8%fin ->
          task.ID t !!! i
          = rand.supply (random w) (rand.cursor (random w) + fin_to_nat i)%nat)
    /\ rand.cursor (random (snd (task.NewTask title tags w)))
       = (rand.cursor (random w) + 16)%nat.
Proof.
  pose proof (NewTaskID_fresh w) as F. cbv zeta in F.
  destruct F as (Hbytes & _ & _ & Hne & Hcur & _ & Hclock).
  unfold task.NewTask.
  destruct (String.eqb_spec (gostrings.TrimSpace title) "") as [E|_]; [contradiction|].
  unfold bind, ret, time_Now.
  destruct (task_id.NewTaskID w) as [id w'] eqn:EN.
  cbn [fst snd] in *.
  eexists. split; [reflexivity|].
  cbn [task.Status task.CreatedAt task.Notes task.DueDate task.CompletedAt
       task.DeferredCount task.ID fst snd].
  repeat split; auto.
Qed.

Lemma NewTask_initial_fields_witness :
  gostrings.TrimSpace "  Buy milk " <> ""%string
  /\ exists t : task.Task,
       fst (fst (task.NewTask "  Buy milk " (Some ["home"%string]) sample_world)) = Some t
       /\ task.Status t = StatusPool
       /\ task.DeferredCount t = 0.
Proof.
  assert (H : gostrings.TrimSpace "  Buy milk " <> ""%string)
    by (vm_compute; discriminate).
  split; [exact H|].
  destruct (NewTask_initial_fields "  Buy milk " (Some ["home"%string]) sample_world H)
    as (t & Hrun & Hst & _ & _ & _ & _ & _ & Hdc & _).
  exists t. rewrite Hrun. auto.
Defined.

(** ** Trimming *)








(** On ASCII text [TrimSpace] is [trim_ascii]. *)
Lemma leb_RuneSelf (c : byte) : u8.leb utf8.RuneSelf c = negb (u8.ltb c utf8.RuneSelf).
Proof. unfold u8.leb, u8.ltb. apply N.leb_antisym. Qed.

Lemma TrimSpace_start_ascii (s : list byte) :
  ascii_only s = true -> gostrings.TrimSpace_start s = inr (drop_spaces s).
Proof.
  induction s as [|c s IH]; simpl; [reflexivity|].
  intros H. apply andb_true_iff in H as [Hc Hs].
  rewrite leb_RuneSelf, Hc. simpl.
  destruct (gostrings.asciiSpace c); simpl; [apply IH, Hs | reflexivity].
Qed.

Lemma ascii_only_drop_spaces (s : list byte) :
  ascii_only s = true -> ascii_only (drop_spaces s) = true.
Proof.
  induction s as [|c s IH]; simpl; [reflexivity|].
  intros H. destruct (gostrings.asciiSpace c); [|exact H].
  apply andb_true_iff in H as [_ Hs]. apply IH, Hs.
Qed.

Lemma ascii_only_index (s : list byte) (k : nat) :
  ascii_only s = true -> (k < length s)%nat -> u8.ltb (u8.index s k) utf8.RuneSelf = true.
Proof.
  revert k. induction s as [|c s IH]; simpl; intros k H Hk; [lia|].
  apply andb_true_iff in H as [Hc Hs].
  destruct k as [|k]; [exact Hc|]. apply IH; [exact Hs | lia].
Qed.

Lemma take_S_index (s : list byte) (k : nat) :
  (k < length s)%nat -> take (S k) s = take k s ++ [u8.index s k].
Proof.
  revert k. induction s as [|c s IH]; simpl; intros k Hk; [lia|].
  destruct k as [|k]; [reflexivity|].
  simpl. f_equal. apply IH. lia.
Qed.

Lemma TrimSpace_stop_ascii (s : list byte) (n : nat) :
  ascii_only s = true -> (n <= length s)%nat ->
  gostrings.TrimSpace_stop s n = reverse (drop_spaces (reverse (take n s))).
Proof.
  intros Ha. induction n as [|k IH]; intros Hn.
  - reflexivity.
  - simpl gostrings.TrimSpace_stop.
    rewrite leb_RuneSelf, (ascii_only_index s k Ha) by lia. simpl negb. cbv iota.
    rewrite (take_S_index s k) by lia.
    rewrite reverse_app. simpl.
    destruct (gostrings.asciiSpace (u8.index s k)); simpl.
    + apply IH. lia.
    + rewrite reverse_cons, reverse_involutive. reflexivity.
Qed.

Lemma TrimSpace_bytes_ascii (s : list byte) :
  ascii_only s = true -> gostrings.TrimSpace_bytes s = trim_ascii s.
Proof.
  intros Ha. unfold gostrings.TrimSpace_bytes, trim_ascii.
  rewrite (TrimSpace_start_ascii s Ha).
  rewrite TrimSpace_stop_ascii by (auto using ascii_only_drop_spaces).
  rewrite firstn_all. reflexivity.
Qed.

(** What [trim_ascii] does: it cuts white space off the two ends and
    nothing else, and what is left neither begins nor ends with white
    space. *)
Lemma drop_spaces_split (s : list byte) :
  exists pre, s = pre ++ drop_spaces s /\ forallb gostrings.asciiSpace pre = true.
Proof.
  induction s as [|c s (pre & E & Hpre)]; simpl.
  - exists []. auto.
  - destruct (gostrings.asciiSpace c) eqn:Hc.
    + exists (c :: pre). simpl. rewrite Hc, Hpre. split; [f_equal; exact E | reflexivity].
    + exists []. auto.
Qed.

Lemma drop_spaces_head (s : list byte) (c : byte) :
  head (drop_spaces s) = Some c -> gostrings.asciiSpace c = false.
Proof.
  induction s as [|x s IH]; simpl; [discriminate|].
  destruct (gostrings.asciiSpace x) eqn:Hx; [exact IH|].
  simpl. intros [= <-]. exact Hx.
Qed.

Lemma drop_spaces_last (s : list byte) (c : byte) :
  last s = Some c -> gostrings.asciiSpace c = false -> last (drop_spaces s) = Some c.
Proof.
  induction s as [|x s IH]; simpl; [discriminate|].
  intros Hl Hc. destruct (gostrings.asciiSpace x) eqn:Hx; [|exact Hl].
  destruct s as [|y s]; simpl in Hl.
  - injection Hl as ->. congruence.
  - apply IH; assumption.
Qed.

Lemma forallb_reverse {A} (f : A -> bool) (l : list A) :
  forallb f (reverse l) = forallb f l.
Proof.
  induction l as [|x l IH]; [reflexivity|].
  rewrite reverse_cons, forallb_app, IH. simpl.
  rewrite andb_true_r. apply andb_comm.
Qed.

Lemma trim_ascii_spec (s : list byte) :
  (exists pre post,
      s = pre ++ trim_ascii s ++ post
      /\ forallb gostrings.asciiSpace pre = true
      /\ forallb gostrings.asciiSpace post = true)
  /\ (forall c, head (trim_ascii s) = Some c -> gostrings.asciiSpace c = false)
  /\ (forall c, last (trim_ascii s) = Some c -> gostrings.asciiSpace c = false).
Proof.
  unfold trim_ascii.
  destruct (drop_spaces_split s) as (pre & E1 & Hpre).
  destruct (drop_spaces_split (reverse (drop_spaces s))) as (post & E2 & Hpost).
  split; [|split].
  - exists pre, (reverse post). split; [|split].
    + rewrite <- reverse_app, <- E2, reverse_involutive. exact E1.
    + exact Hpre.
    + rewrite forallb_reverse. exact Hpost.
  - intros c. rewrite head_reverse. intros Hl.
    destruct (head (drop_spaces s)) as [d|] eqn:Hd.
    + pose proof (drop_spaces_head _ _ Hd) as Hns.
      rewrite (drop_spaces_last _ d) in Hl.
      * injection Hl as <-. exact Hns.
      * rewrite last_reverse. exact Hd.
      * exact Hns.
    + destruct (drop_spaces s); [discriminate Hl | discriminate Hd].
  - intros c. rewrite last_reverse. apply drop_spaces_head.
Qed.


(** ** Transitions out of [done] *)

(** C5.  On a task whose status is [done], [Pick] and [Defer] fail with
    the invalid-state-transition error, which differs from every other
    sentinel, and return the task as it was; [Complete] succeeds and
    returns the task as it was; hence whenever one of the three succeeds
    on a done task, the task is unchanged. *)
Theorem done_task_transitions
  (t : task.Task) (Hdone : task.Status t = StatusDone) :
  transitions.Pick t = (t, Some ErrInvalidStateTransition)
  /\ transitions.Defer t = (t, Some ErrInvalidStateTransition)
  /\ (forall e, In e [ErrTaskNotFound; ErrInvalidStatus; ErrEmptyTitle; ErrDuplicateTaskID] ->
        error_eqb ErrInvalidStateTransition e = false)
  /\ (forall w, transitions.Complete t w = ((t, None), w))
  /\ (forall t', transitions.Pick t = (t', None)
                 \/ transitions.Defer t = (t', None)
                 \/ (exists w w', transitions.Complete t w = ((t', None), w')) ->
                 t' = t).
Proof.
  unfold transitions.Pick, transitions.Defer, transitions.Complete.
  rewrite Hdone. cbn.
  repeat split.
  - intros e He. simpl in He.
    repeat (destruct He as [<-|He]; [reflexivity|]). contradiction.
  - intros t' [H|[H|(w & w' & H)]]; try discriminate H.
    injection H as <- _. reflexivity.
Qed.

Lemma done_task_transitions_witness :
  task.Status sample_done_task = StatusDone
  /\ transitions.Pick sample_done_task
     = (sample_done_task, Some ErrInvalidStateTransition)
  /\ transitions.Defer sample_done_task
     = (sample_done_task, Some ErrInvalidStateTransition).
Proof.
  split; [reflexivity|].
  pose proof (done_task_transitions sample_done_task eq_refl) as (HP & HD & _).
  split; [exact HP | exact HD].
Defined.

(** ** The cases of the repository's tests *)

Example test_TrimSpace_mixed :
  gostrings.TrimSpace
    (string_of_list_byte
       ([x20; x09; x20] ++ list_byte_of_string "Buy  some   milk" ++ [x20; x0a; x20]))
  = "Buy  some   milk"%string.
Proof. vm_compute. reflexivity. Qed.

Example test_TrimSpace_whitespace_only :
  gostrings.TrimSpace (string_of_list_byte [x20; x09; x0a; x20]) = ""%string.
Proof. vm_compute. reflexivity. Qed.

(** No-break space (U+00A0), ideographic space (U+3000) and line
    separator (U+2028) are trimmed as well; a stray continuation byte is
    not. *)
Example test_TrimSpace_unicode :
  gostrings.TrimSpace
    (string_of_list_byte
       ([xc2; xa0; x20; xe3; x80; x80] ++ list_byte_of_string "a b"
        ++ [xe2; x80; xa8; x0a; xc2; x85]))
  = "a b"%string
  /\ gostrings.TrimSpace (string_of_list_byte [x20; xc3; xa9; x20; xa0; x20])
     = string_of_list_byte [xc3; xa9; x20; xa0].
Proof. split; vm_compute; reflexivity. Qed.

Example test_NewTask_whitespace_title :
  fst (task.NewTask (string_of_list_byte [x20; x09; x0a; x20]) None sample_world)
  = (None, Some ErrEmptyTitle).
Proof. vm_compute. reflexivity. Qed.

Example test_NewTask_nbsp_title :
  fst (task.NewTask (string_of_list_byte [xc2; xa0]) None sample_world)
  = (None, Some ErrEmptyTitle).
Proof. vm_compute. reflexivity. Qed.

Example test_NewTask_tags :
  (task.Tags <$> fst (fst (task.NewTask "Buy groceries" (Some ["personal"%string]) sample_world)))
  = Some (Some ["personal"%string])
  /\ (task.Tags <$> fst (fst (task.NewTask "Buy groceries" (Some []) sample_world)))
     = Some None
  /\ (task.Title <$> fst (fst (task.NewTask "  Buy milk  " None sample_world)))
     = Some "Buy milk"%string.
Proof. repeat split; vm_compute; reflexivity. Qed.

Example test_ParseTaskID_valid :
  task_id.String (fst (task_id.ParseTaskID "550e8400-e29b-41d4-a716-446655440000"))
  = "550e8400-e29b-41d4-a716-446655440000"%string
  /\ snd (task_id.ParseTaskID "550e8400-e29b-41d4-a716-446655440000") = None.
Proof. split; vm_compute; reflexivity. Qed.

Example test_ParseTaskID_invalid :
  task_id.ParseTaskID "invalid-uuid-string"
  = (uuid.Nil, Some (uuidError (uuid.invalid_length 19))).
Proof. vm_compute. reflexivity. Qed.

Example test_ParseTaskID_other_forms :
  fst (task_id.ParseTaskID "{550E8400-E29B-41D4-A716-446655440000}")
  = fst (task_id.ParseTaskID "550e8400e29b41d4a716446655440000")
  /\ snd (task_id.ParseTaskID "550e8400-e29b-41d4-a716-44665544000g")
     = Some (uuidError uuid.invalid_format).
Proof. split; vm_compute; reflexivity. Qed.

Example test_NewTaskID_not_empty :
  task_id.IsEmpty (fst (task_id.NewTaskID sample_world)) = false
  /\ task_id.String (fst (task_id.NewTaskID sample_world))
     = "262d343b-4249-4057-9e65-6c737a81888f"%string.
Proof. split; vm_compute; reflexivity. Qed.

Example test_Matches :
  let t := {| task.ID := uuid.Nil; task.CreatedAt := 0; task.Title := "t";
              task.Notes := ""; task.Status := StatusToday;
              task.Tags := Some ["work"; "urgent"]%string;
              task.DueDate := Some 100; task.CompletedAt := None;
              task.DeferredCount := 0 |} in
  task_filter.Matches
    (task_filter.mkTaskFilter (Some StatusToday) (Some ["urgent"%string]) (Some 100) (Some 100) (-1))
    t = true
  /\ task_filter.Matches
       (task_filter.mkTaskFilter None (Some ["urgent"; "home"]%string) None None 0) t = false
  /\ task_filter.Matches
       (task_filter.mkTaskFilter (Some StatusPool) None None None 5) t = false
  /\ task_filter.Matches
       (task_filter.mkTaskFilter None None (Some 101) None 0) t = false
  /\ task_filter.Matches
       (task_filter.mkTaskFilter None (Some []) None (Some 99) 0) t = false.
Proof. repeat split; vm_compute; reflexivity. Qed.

(** * Further properties of the code *)

(** ** task_filter.go *)

Lemma Matches_guards (f : task_filter.TaskFilter) (t : task.Task) :
  task_filter.Matches f t = true
  <->
  (task_filter.Status f = None \/ task_filter.Status f = Some (task.Status t))
  /\ (task_filter.Tags f = None \/ task_filter.Tags f = Some []
      \/ forall tag, tag ∈ slice.elems (task_filter.Tags f) ->
                     tag ∈ slice.elems (task.Tags t))
  /\ (forall after, task_filter.DueAfter f = Some after ->
        exists d, task.DueDate t = Some d /\ after <= d)
  /\ (forall before, task_filter.DueBefore f = Some before ->
        exists d, task.DueDate t = Some d /\ d <= before).
Proof.
  unfold task_filter.Matches.
  rewrite fail_fast, status_guard, tags_guard, after_guard, before_guard.
  reflexivity.
Qed.

Lemma string_neq_snoc (s : string) : (s ++ "x")%string <> s.
Proof.
  induction s as [|a s IH]; simpl.
  - discriminate.
  - intros [= H]. exact (IH H).
Qed.

(** X1.  A filter matches every task exactly when it sets no status, no
    tag and no due-date bound. *)
Theorem Matches_everything_iff_unconstrained (f : task_filter.TaskFilter) :
  (forall t, task_filter.Matches f t = true)
  <->
  task_filter.Status f = None
  /\ slice.len (task_filter.Tags f) = 0
  /\ task_filter.DueAfter f = None
  /\ task_filter.DueBefore f = None.
Proof.
  split.
  - intros H.
    assert (Hs : task_filter.Status f = None).
    { destruct (task_filter.Status f) as [s|] eqn:E; [|reflexivity].
      specialize (H (bare_task (s ++ "x")%string)).
      apply Matches_guards in H as ([H|H] & _); rewrite E in H; [discriminate|].
      injection H as H. exfalso. exact (string_neq_snoc s (eq_sym H)). }
    pose proof (proj1 (Matches_guards f (bare_task "pool")) (H _)) as (_ & Ht & Ha & Hb).
    repeat split; [exact Hs | | |].
    + unfold slice.len, slice.elems in *.
      destruct Ht as [->|[->|Ht]]; [reflexivity | reflexivity |].
      destruct (task_filter.Tags f) as [[|x l]|]; [reflexivity | | reflexivity].
      specialize (Ht x (list_elem_of_here x l)). simpl in Ht. inversion Ht.
    + destruct (task_filter.DueAfter f) as [a|]; [|reflexivity].
      destruct (Ha a eq_refl) as (d & Hd & _). discriminate Hd.
    + destruct (task_filter.DueBefore f) as [b|]; [|reflexivity].
      destruct (Hb b eq_refl) as (d & Hd & _). discriminate Hd.
  - intros (Hs & Ht & Ha & Hb) t. apply Matches_guards.
    rewrite Hs, Ha, Hb. repeat split; auto; try discriminate.
    unfold slice.len, slice.elems in Ht.
    destruct (task_filter.Tags f) as [[|x l]|]; auto. simpl in Ht. lia.
Qed.

(** X2.  The criteria are combined by conjunction: a filter matches a
    task exactly when each of its four criteria, taken alone, does. *)
Theorem Matches_is_conjunction (f : task_filter.TaskFilter) (t : task.Task) :
  task_filter.Matches f t
  = task_filter.Matches (only_status f) t
    && task_filter.Matches (only_tags f) t
    && task_filter.Matches (only_after f) t
    && task_filter.Matches (only_before f) t.
Proof.
  unfold task_filter.Matches, only_status, only_tags, only_after, only_before.
  cbn [task_filter.Status task_filter.Tags task_filter.DueAfter task_filter.DueBefore].
  change (0 <? slice.len (@None (list string))) with false. cbn [andb].
  destruct (task_filter.Status f) as [s|];
    [destruct (negb (String.eqb (task.Status t) s))|];
    destruct ((0 <? slice.len (task_filter.Tags f))
              && negb (task_filter.containsAllTags (task.Tags t) (task_filter.Tags f)));
    destruct (task_filter.DueAfter f) as [a|], (task_filter.DueBefore f) as [b|],
             (task.DueDate t) as [d|];
    cbn; try reflexivity;
    try (destruct (time.Before d a)); try (destruct (time.After d b)); reflexivity.
Qed.

(** X3.  Tag lists count as sets: the order of the tags and repeated
    tags, in the filter and in the task, do not change the answer. *)
Theorem Matches_tags_as_sets
  (status : option TaskStatus) (tags tags' : slice.t string)
  (dueAfter dueBefore : option time.Time) (limit limit' : Z) (t t' : task.Task)
  (Hfilter : forall x, x ∈ slice.elems tags <-> x ∈ slice.elems tags')
  (Htask : forall x, x ∈ slice.elems (task.Tags t) <-> x ∈ slice.elems (task.Tags t'))
  (Hstatus : task.Status t = task.Status t')
  (Hdue : task.DueDate t = task.DueDate t') :
  task_filter.Matches (task_filter.mkTaskFilter status tags dueAfter dueBefore limit) t
  = task_filter.Matches (task_filter.mkTaskFilter status tags' dueAfter dueBefore limit') t'.
Proof.
  apply eq_true_iff_eq. rewrite !Matches_guards.
  cbn [task_filter.Status task_filter.Tags task_filter.DueAfter task_filter.DueBefore].
  rewrite Hstatus, Hdue.
  assert (Hsub : (forall tag, tag ∈ slice.elems tags -> tag ∈ slice.elems (task.Tags t))
                 <-> (forall tag, tag ∈ slice.elems tags' -> tag ∈ slice.elems (task.Tags t'))).
  { split; intros H x Hx.
    - apply Htask, H, Hfilter, Hx.
    - apply Htask, H, Hfilter, Hx. }
  assert (Hnil : forall s : slice.t string,
             s = None \/ s = Some [] \/ (forall x, x ∈ slice.elems s -> x ∈ slice.elems (task.Tags t'))
             <-> (forall x, x ∈ slice.elems s -> x ∈ slice.elems (task.Tags t'))).
  { intros s. split; [|auto].
    intros [->|[->|H]]; [intros x Hx; inversion Hx | intros x Hx; inversion Hx | exact H]. }
  rewrite (Hnil tags'). rewrite <- Hsub.
  assert (Hnil' : tags = None \/ tags = Some []
                  \/ (forall x, x ∈ slice.elems tags -> x ∈ slice.elems (task.Tags t))
                  <-> (forall x, x ∈ slice.elems tags -> x ∈ slice.elems (task.Tags t))).
  { split; [|auto].
    intros [->|[->|H]]; [intros x Hx; inversion Hx | intros x Hx; inversion Hx | exact H]. }
  rewrite Hnil'. reflexivity.
Qed.

Lemma Matches_tags_as_sets_witness :
  task_filter.Matches
    (task_filter.mkTaskFilter None (Some ["a"; "b"; "a"]%string) None None 0)
    (bare_task "pool")
  = task_filter.Matches
      (task_filter.mkTaskFilter None (Some ["b"; "a"]%string) None None 7)
      (bare_task "pool").
Proof.
  apply Matches_tags_as_sets; try reflexivity.
  intros x. unfold slice.elems. simpl. rewrite !elem_of_cons, elem_of_nil. tauto.
Defined.



(** X5.  [containsAllTags] is inclusion of the second list in the first:
    every list contains itself, containment is transitive, every list
    contains the nil and the empty list, and a nil or empty list
    contains nothing but those. *)
Theorem containsAllTags_inclusion (a b c : slice.t string) :
  (task_filter.containsAllTags a b = true
   <-> forall tag, tag ∈ slice.elems b -> tag ∈ slice.elems a)
  /\ task_filter.containsAllTags a a = true
  /\ (task_filter.containsAllTags a b = true ->
      task_filter.containsAllTags b c = true ->
      task_filter.containsAllTags a c = true)
  /\ task_filter.containsAllTags a None = true
  /\ task_filter.containsAllTags a (Some []) = true
  /\ (slice.len a = 0 ->
      (task_filter.containsAllTags a b = true <-> slice.len b = 0)).
Proof.
  split; [apply containsAllTags_spec|].
  split; [apply containsAllTags_spec; auto|].
  split; [rewrite !containsAllTags_spec; intros Hab Hbc x Hx; apply Hab, Hbc, Hx|].
  split; [reflexivity|]. split; [reflexivity|].
  intros Ha. unfold slice.len in *.
  destruct (slice.elems a) as [|x l] eqn:Ea; [|simpl in Ha; lia].
  rewrite containsAllTags_spec, Ea.
  destruct (slice.elems b) as [|y l'].
  - split; [reflexivity | intros _ z Hz; inversion Hz].
  - split.
    + intros H. specialize (H y (list_elem_of_here y l')). inversion H.
    + simpl. lia.
Qed.

(** ** task.go *)

Lemma NewTask_success (title : string) (tags : slice.t string) (w : World) (t : task.Task) :
  fst (fst (task.NewTask title tags w)) = Some t ->
  gostrings.TrimSpace title <> ""%string
  /\ task.NewTask title tags w
     = ((Some t, None), snd (task_id.NewTaskID w))
  /\ t = {| task.ID := fst (task_id.NewTaskID w);
            task.CreatedAt := wall_clock (snd (task_id.NewTaskID w));
            task.Title := gostrings.TrimSpace title;
            task.Notes := "";
            task.Status := StatusPool;
            task.Tags := if 0 <? slice.len tags then slice.clone tags else None;
            task.DueDate := None;
            task.CompletedAt := None;
            task.DeferredCount := 0 |}.
Proof.
  unfold task.NewTask.
  destruct (String.eqb_spec (gostrings.TrimSpace title) "") as [E|NE].
  - cbn. discriminate.
  - unfold bind, ret, time_Now.
    destruct (task_id.NewTaskID w) as [id w'].
    cbn -[gostrings.TrimSpace]. intros [= <-]. auto.
Qed.

Lemma NewTask_failure (title : string) (tags : slice.t string) (w : World) :
  gostrings.TrimSpace title = ""%string ->
  task.NewTask title tags w = ((None, Some ErrEmptyTitle), w).
Proof.
  intros E. unfold task.NewTask. rewrite E. reflexivity.
Qed.

(** X6.  A call of [NewTask] that fails has no effect: no identifier is
    generated and no random byte is used.  A call that succeeds uses
    sixteen random bytes; neither touches the clock.  So the world is
    left as it was exactly when the call fails. *)
Theorem NewTask_effects (title : string) (tags : slice.t string) (w : World) :
  let w' := snd (task.NewTask title tags w) in
  (w' = w <-> gostrings.TrimSpace title = ""%string)
  /\ (w' = w <-> snd (fst (task.NewTask title tags w)) = Some ErrEmptyTitle)
  /\ (rand.cursor (random w') = rand.cursor (random w)
      \/ rand.cursor (random w') = (rand.cursor (random w) + 16)%nat)
  /\ rand.supply (random w') = rand.supply (random w)
  /\ wall_clock w' = wall_clock w.
Proof.
  pose proof (NewTaskID_fresh w) as F. cbv zeta in F.
  destruct F as (_ & _ & _ & _ & Hcur & Hsup & Hclock).
  destruct (String.eqb_spec (gostrings.TrimSpace title) "") as [E|NE].
  - rewrite (NewTask_failure title tags w E). cbn. tauto.
  - assert (R : task.NewTask title tags w
                = ((fst (fst (task.NewTask title tags w)), None),
                   snd (task_id.NewTaskID w))).
    { unfold task.NewTask.
      destruct (String.eqb_spec (gostrings.TrimSpace title) "") as [E|_]; [contradiction|].
      unfold bind, ret, time_Now. destruct (task_id.NewTaskID w). reflexivity. }
    rewrite R. cbn [fst snd].
    assert (Hne : snd (task_id.NewTaskID w) <> w).
    { intros Heq. rewrite Heq in Hcur. lia. }
    repeat split; auto; try contradiction; try discriminate.
Qed.

(** X7.  The tags of the new task are the tags given, in the same order;
    a nil or empty list of tags is stored as nil. *)
Theorem NewTask_tags
  (title : string) (tags : slice.t string) (w : World) (t : task.Task)
  (Hok : fst (fst (task.NewTask title tags w)) = Some t) :
  slice.elems (task.Tags t) = slice.elems tags
  /\ (task.Tags t = None <-> slice.len tags = 0)
  /\ (task.Tags t = Some (slice.elems tags) <-> 0 < slice.len tags).
Proof.
  apply NewTask_success in Hok as (_ & _ & ->). cbn [task.Tags].
  unfold slice.len, slice.clone, slice.elems.
  destruct tags as [[|x l]|]; simpl.
  - repeat split; auto; try discriminate; lia.
  - repeat split; auto; try discriminate; lia.
  - repeat split; auto; try discriminate; lia.
Qed.

Lemma NewTask_tags_witness :
  exists t, fst (fst (task.NewTask "Buy milk" (Some ["home"; "shop"]%string) sample_world))
            = Some t
            /\ slice.elems (task.Tags t) = ["home"; "shop"]%string.
Proof.
  eexists. split; [vm_compute; reflexivity|].
  refine (proj1 (NewTask_tags "Buy milk" (Some ["home"; "shop"]%string) sample_world _ _)).
  vm_compute. reflexivity.
Defined.

Lemma mem_read_app (m : mem.Store) (a : list string) (s : mem.Slice) :
  mem.wf m s -> mem.read (m ++ [a]) s = mem.read m s.
Proof.
  destruct s as [h|]; [|reflexivity]. intros [Hl _].
  unfold mem.read, mem.array. rewrite lookup_app_l by exact Hl. reflexivity.
Qed.

Lemma mem_read_length (m : mem.Store) (h : mem.header) :
  mem.wf m (Some h) -> length (mem.read m (Some h)) = mem.size h.
Proof.
  intros [_ Hb]. unfold mem.read. rewrite length_take, length_drop. lia.
Qed.

(** X8.  The tags are copied defensively.  The slice stored in the task
    points to an array of its own that holds the caller's elements; the
    caller's slice reads as before; and whatever is later written into
    any array that existed before the call, in particular through the
    caller's slice, the task's tags do not change.  In the store-free
    model the slice built is the one [NewTask] computes. *)
Theorem NewTask_tags_defensive_copy
  (tags : mem.Slice) (m : mem.Store) (Hwf : mem.wf m tags) :
  let taskTags := fst (NewTask_taskTags tags m) in
  let m' := snd (NewTask_taskTags tags m) in
  mem.read m' taskTags = mem.read m tags
  /\ mem.read m' tags = mem.read m tags
  /\ mem.abs m' taskTags
     = (if 0 <? slice.len (mem.abs m tags) then slice.clone (mem.abs m tags) else None)
  /\ (forall (l : mem.loc) (data : list string), (l < length m)%nat ->
        mem.read (<[l := data]> m') taskTags = mem.read m tags)
  /\ (forall i v m'', mem.set tags i v m' = Some m'' ->
        mem.read m'' taskTags = mem.read m tags)
  /\ (forall h h', tags = Some h -> taskTags = Some h' -> mem.arr h' <> mem.arr h).
Proof.
  unfold NewTask_taskTags.
  destruct tags as [h|]; simpl mem.len.
  2: { cbn. repeat split; intros; first [reflexivity | discriminate]. }
  destruct (0 <? Z.of_nat (mem.size h)) eqn:Hpos.
  2: { cbn [fst snd]. apply Z.ltb_ge in Hpos.
       assert (Hz : mem.size h = 0%nat) by lia.
       assert (Hr : mem.read m (Some h) = []).
       { unfold mem.read. rewrite Hz. reflexivity. }
       unfold mem.abs. rewrite !Hr. cbn.
       repeat split; intros; first [reflexivity | discriminate]. }
  rewrite Nat2Z.id.
  pose proof (mem_read_length m h Hwf) as Hlen.
  pose proof Hwf as [Hl Hb].
  unfold mem.make, mem.copy. cbn [fst snd mem.arr mem.off mem.size].
  rewrite (mem_read_app m _ (Some h) Hwf).
  set (data := mem.read m (Some h)) in *.
  assert (Hold : mem.array (m ++ [replicate (mem.size h) ""%string]) (length m)
                 = replicate (mem.size h) ""%string).
  { unfold mem.array. rewrite lookup_app_r by lia.
    rewrite Nat.sub_diag. reflexivity. }
  rewrite Hold.
  assert (Hnew : take 0 (replicate (mem.size h) ""%string)
                 ++ take (mem.size h) data
                 ++ drop (0 + length (take (mem.size h) data))
                      (replicate (mem.size h) ""%string) = data).
  { rewrite (take_ge data) by lia. simpl.
    rewrite drop_ge by (rewrite length_replicate; lia).
    apply app_nil_r. }
  rewrite Hnew.
  set (m' := <[length m := data]> (m ++ [replicate (mem.size h) ""%string])).
  assert (Hm' : length m' = S (length m)).
  { unfold m'. rewrite length_insert, length_app. simpl. lia. }
  assert (Hown : forall m2 : mem.Store, m2 !! length m = Some data ->
                   mem.read m2 (Some (mem.mkHeader (length m) 0%nat (mem.size h))) = data).
  { intros m2 H2. unfold mem.read, mem.array. cbn [mem.arr mem.off mem.size].
    rewrite H2. simpl. apply take_ge. lia. }
  assert (Hat : m' !! length m = Some data).
  { unfold m'. apply list_lookup_insert_eq. rewrite length_app. simpl. lia. }
  assert (Hcaller : m' !! mem.arr h = m !! mem.arr h).
  { unfold m'. rewrite list_lookup_insert_ne by lia. apply lookup_app_l, Hl. }
  split; [apply Hown, Hat|].
  split; [unfold mem.read, mem.array, data; rewrite Hcaller; reflexivity|].
  split.
  { cbn [mem.abs]. rewrite (Hown m' Hat).
    unfold slice.len, slice.clone, slice.elems. cbn [default from_option id].
    fold data. rewrite Hlen, Hpos. reflexivity. }
  split.
  { intros l d Hlt. apply Hown. rewrite list_lookup_insert_ne by lia. exact Hat. }
  split.
  { intros i v m'' Hset. unfold mem.set in Hset.
    destruct (i <? mem.size h)%nat; [|discriminate Hset].
    injection Hset as <-. apply Hown.
    rewrite list_lookup_insert_ne by lia. exact Hat. }
  intros h0 h' [= <-] [= <-]. cbn. lia.
Qed.

Lemma NewTask_tags_defensive_copy_witness :
  mem.wf sample_store sample_tags
  /\ forall m'',
       mem.set sample_tags 0 "modified" (snd (NewTask_taskTags sample_tags sample_store))
       = Some m'' ->
       mem.read m'' (fst (NewTask_taskTags sample_tags sample_store))
       = ["tag1"; "tag2"]%string.
Proof.
  assert (H : mem.wf sample_store sample_tags) by (cbn; lia).
  split; [exact H|].
  intros m''.
  exact (proj1 (proj2 (proj2 (proj2 (proj2
           (NewTask_tags_defensive_copy sample_tags sample_store H))))) 0%nat _ m'').
Defined.

Lemma string_of_list_byte_nil (l : list byte) :
  string_of_list_byte l = ""%string <-> l = [].
Proof.
  split; [|intros ->; reflexivity].
  intros H. apply (f_equal list_byte_of_string) in H.
  rewrite list_byte_of_string_of_list_byte in H. exact H.
Qed.

Lemma drop_spaces_nil (s : list byte) :
  drop_spaces s = [] <-> forallb gostrings.asciiSpace s = true.
Proof.
  induction s as [|c s IH]; simpl; [tauto|].
  destruct (gostrings.asciiSpace c); simpl; [exact IH|].
  split; discriminate.
Qed.

Lemma trim_ascii_nil (s : list byte) :
  trim_ascii s = [] <-> forallb gostrings.asciiSpace s = true.
Proof.
  split.
  - intros H. destruct (trim_ascii_spec s) as ((pre & post & E & Hpre & Hpost) & _).
    rewrite H in E. simpl in E. rewrite E, forallb_app, Hpre, Hpost. reflexivity.
  - intros H. unfold trim_ascii.
    rewrite (proj2 (drop_spaces_nil s) H). reflexivity.
Qed.

Lemma drop_spaces_id (s : list byte) :
  (forall c, head s = Some c -> gostrings.asciiSpace c = false) -> drop_spaces s = s.
Proof.
  destruct s as [|c s]; simpl; [reflexivity|].
  intros H. rewrite (H c eq_refl). reflexivity.
Qed.

Lemma trim_ascii_idempotent (s : list byte) : trim_ascii (trim_ascii s) = trim_ascii s.
Proof.
  destruct (trim_ascii_spec s) as (_ & Hhead & Hlast).
  set (x := trim_ascii s) in *. unfold trim_ascii.
  rewrite (drop_spaces_id x Hhead).
  rewrite drop_spaces_id; [apply reverse_involutive|].
  intros c. rewrite head_reverse. apply Hlast.
Qed.

Lemma ascii_only_trim_ascii (s : list byte) :
  ascii_only s = true -> ascii_only (trim_ascii s) = true.
Proof.
  destruct (trim_ascii_spec s) as ((pre & post & E & _) & _).
  intros H. rewrite E in H. unfold ascii_only in *.
  rewrite !forallb_app in H.
  apply andb_true_iff in H as [_ H]. apply andb_true_iff in H as [H _]. exact H.
Qed.

(** X9.  For a title made of ASCII bytes, [NewTask] fails exactly when
    every byte of the title is a tab, a line feed, a vertical tab, a form
    feed, a carriage return or a space (the empty title included). *)
Theorem NewTask_fails_iff_blank_ascii
  (title : string) (tags : slice.t string) (w : World)
  (Hascii : ascii_only (list_byte_of_string title) = true) :
  (snd (fst (task.NewTask title tags w)) = Some ErrEmptyTitle
   <-> forallb gostrings.asciiSpace (list_byte_of_string title) = true)
  /\ (fst (fst (task.NewTask title tags w)) = None
      <-> forallb gostrings.asciiSpace (list_byte_of_string title) = true).
Proof.
  assert (B : gostrings.TrimSpace title = ""%string
              <-> forallb gostrings.asciiSpace (list_byte_of_string title) = true).
  { unfold gostrings.TrimSpace.
    rewrite string_of_list_byte_nil, (TrimSpace_bytes_ascii _ Hascii).
    apply trim_ascii_nil. }
  rewrite <- B.
  destruct (String.eqb_spec (gostrings.TrimSpace title) "") as [E|NE].
  - rewrite (NewTask_failure title tags w E). cbn. tauto.
  - unfold task.NewTask.
    destruct (String.eqb_spec (gostrings.TrimSpace title) "") as [E|_]; [contradiction|].
    unfold bind, ret, time_Now. destruct (task_id.NewTaskID w).
    cbn -[gostrings.TrimSpace].
    split; (split; [discriminate | contradiction]).
Qed.

Lemma NewTask_fails_iff_blank_ascii_witness :
  snd (fst (task.NewTask "   " None sample_world)) = Some ErrEmptyTitle
  <-> forallb gostrings.asciiSpace (list_byte_of_string "   ") = true.
Proof.
  refine (proj1 (NewTask_fails_iff_blank_ascii "   " None sample_world _)).
  reflexivity.
Defined.

(** X10.  For a title made of ASCII bytes, the title stored by [NewTask]
    is stable under trimming: it neither begins nor ends with white
    space, it trims to itself, and creating a task from it stores the
    same title again. *)
Theorem NewTask_title_stable_ascii
  (title : string) (tags tags' : slice.t string) (w w' : World) (t : task.Task)
  (Hascii : ascii_only (list_byte_of_string title) = true)
  (Hok : fst (fst (task.NewTask title tags w)) = Some t) :
  gostrings.TrimSpace (task.Title t) = task.Title t
  /\ (exists t', fst (task.NewTask (task.Title t) tags' w') = (Some t', None)
                 /\ task.Title t' = task.Title t)
  /\ (forall c, head (list_byte_of_string (task.Title t)) = Some c ->
                gostrings.asciiSpace c = false)
  /\ (forall c, last (list_byte_of_string (task.Title t)) = Some c ->
                gostrings.asciiSpace c = false).
Proof.
  apply NewTask_success in Hok as (NE & _ & ->). cbn [task.Title].
  set (bs := list_byte_of_string title) in *.
  assert (Hb : list_byte_of_string (gostrings.TrimSpace title) = trim_ascii bs).
  { unfold gostrings.TrimSpace. rewrite list_byte_of_string_of_list_byte.
    apply TrimSpace_bytes_ascii, Hascii. }
  assert (Hidem : gostrings.TrimSpace (gostrings.TrimSpace title)
                  = gostrings.TrimSpace title).
  { unfold gostrings.TrimSpace at 1. rewrite Hb.
    rewrite TrimSpace_bytes_ascii by (apply ascii_only_trim_ascii, Hascii).
    rewrite trim_ascii_idempotent, <- Hb. apply string_of_list_byte_of_string. }
  split; [exact Hidem|]. split.
  - unfold task.NewTask. rewrite Hidem.
    destruct (String.eqb_spec (gostrings.TrimSpace title) "") as [E|_]; [contradiction|].
    unfold bind, ret, time_Now. destruct (task_id.NewTaskID w').
    cbn -[gostrings.TrimSpace]. eexists. split; reflexivity.
  - rewrite Hb. destruct (trim_ascii_spec bs) as (_ & Hh & Hl). auto.
Qed.

Lemma NewTask_title_stable_ascii_witness :
  exists t, fst (fst (task.NewTask "  Buy milk " None sample_world)) = Some t
            /\ gostrings.TrimSpace (task.Title t) = task.Title t.
Proof.
  eexists. split; [vm_compute; reflexivity|].
  refine (proj1 (NewTask_title_stable_ascii "  Buy milk " None None sample_world
                   sample_world _ _ _)); vm_compute; reflexivity.
Defined.

(** X11.  Two calls of [NewTask] in a row draw their identifiers from
    two successive blocks of sixteen random bytes; the identifiers differ
    as soon as the blocks differ in a byte other than the two that carry
    the version and the variant. *)
Theorem NewTask_twice_identifiers
  (title1 title2 : string) (tags1 tags2 : slice.t string) (w : World)
  (t1 t2 : task.Task)
  (H1 : fst (fst (task.NewTask title1 tags1 w)) = Some t1)
  (H2 : fst (fst (task.NewTask title2 tags2 (snd (task.NewTask title1 tags1 w))))
        = Some t2) :
  let supply := rand.supply (random w) in
  let c := rand.cursor (random w) in
  (forall i : fin 16, i <> 6%fin -> i <> 8%fin ->
     task.ID t1 !!! i = supply (c + fin_to_nat i)%nat
     /\ task.ID t2 !!! i = supply (c + 16 + fin_to_nat i)%nat)
  /\ ((exists i : fin 16, i <> 6%fin /\ i <> 8%fin
         /\ supply (c + fin_to_nat i)%nat <> supply (c + 16 + fin_to_nat i)%nat) ->
      task_id.NotEquals (task.ID t1) (task.ID t2) = true
      /\ task_id.Equals (task.ID t1) (task.ID t2) = false).
Proof.
  apply NewTask_success in H1 as (_ & R1 & E1).
  rewrite R1 in H2. cbn [snd] in H2.
  apply NewTask_success in H2 as (_ & _ & E2).
  pose proof (NewTaskID_fresh w) as F1. cbv zeta in F1.
  destruct F1 as (B1 & _ & _ & _ & C1 & S1 & _).
  pose proof (NewTaskID_fresh (snd (task_id.NewTaskID w))) as F2. cbv zeta in F2.
  destruct F2 as (B2 & _).
  rewrite C1, S1 in B2.
  assert (HB : forall i : fin 16, i <> 6%fin -> i <> 8%fin ->
            task.ID t1 !!! i
            = rand.supply (random w) (rand.cursor (random w) + fin_to_nat i)%nat
            /\ task.ID t2 !!! i
               = rand.supply (random w) (rand.cursor (random w) + 16 + fin_to_nat i)%nat).
  { intros i H6 H8. subst t1 t2. cbn [task.ID]. split; [apply B1 | apply B2]; assumption. }
  cbv zeta. split; [exact HB|].
  intros (i & H6 & H8 & Hne).
  assert (Hd : task_id.Equals (task.ID t1) (task.ID t2) = false).
  { unfold task_id.Equals.
    destruct (uuid.eqb (task.ID t1) (task.ID t2)) eqn:E; [|reflexivity].
    apply uuid_eqb_eq in E. exfalso. apply Hne.
    destruct (HB i H6 H8) as [<- <-]. rewrite E. reflexivity. }
  split; [|exact Hd].
  unfold task_id.NotEquals. unfold task_id.Equals in Hd. rewrite Hd. reflexivity.
Qed.

Lemma NewTask_twice_identifiers_witness :
  exists t1 t2,
    fst (fst (task.NewTask "a" None counting_world)) = Some t1
    /\ fst (fst (task.NewTask "b" None (snd (task.NewTask "a" None counting_world))))
       = Some t2
    /\ task_id.NotEquals (task.ID t1) (task.ID t2) = true.
Proof.
  eexists. eexists.
  split; [vm_compute; reflexivity|]. split; [vm_compute; reflexivity|].
  refine (proj1 (proj2 (NewTask_twice_identifiers "a" "b" None None counting_world
                          _ _ _ _) _)).
  - vm_compute. reflexivity.
  - vm_compute. reflexivity.
  - exists 0%fin. repeat split; discriminate.
Defined.

(** ** task_id.go *)

Lemma encodeHex_length (u : uuid.UUID) : length (uuid.encodeHex u) = 36%nat.
Proof. inv_vec u. intros. rewrite encodeHex_unfold. reflexivity. Qed.

Lemma String_inj (a b : uuid.UUID) : uuid.String a = uuid.String b -> a = b.
Proof.
  intros H. pose proof (Parse_String a) as Ha. rewrite H, Parse_String in Ha.
  congruence.
Qed.

(** X12.  Rendering is faithful: two identifiers have the same string
    exactly when they are equal, so [Equals] can be decided on the
    strings; and every rendering is 36 bytes long. *)
Theorem TaskID_String_injective (a b : TaskID) :
  (task_id.String a = task_id.String b <-> a = b)
  /\ task_id.Equals a b = String.eqb (task_id.String a) (task_id.String b)
  /\ length (list_byte_of_string (task_id.String a)) = 36%nat.
Proof.
  unfold task_id.String, task_id.Equals.
  split; [split; [apply String_inj | intros ->; reflexivity]|].
  split.
  - destruct (String.eqb_spec (uuid.String a) (uuid.String b)) as [E|NE].
    + apply uuid_eqb_eq, String_inj, E.
    + destruct (uuid.eqb a b) eqn:E; [|reflexivity].
      apply uuid_eqb_eq in E. subst. contradiction.
  - unfold uuid.String. rewrite list_byte_of_string_of_list_byte.
    apply encodeHex_length.
Qed.

Lemma encodeHex_version_variant (u : uuid.UUID) :
  u8.index (uuid.encodeHex u) 14 = hi (u !!! 6%fin)
  /\ u8.index (uuid.encodeHex u) 19 = hi (u !!! 8%fin).
Proof. inv_vec u. intros. rewrite encodeHex_unfold. split; reflexivity. Qed.

Lemma variant_digit (b : byte) :
  u8.shr b 6 = Byte.x02 -> In (hi b) ["8"; "9"; "a"; "b"]%byte.
Proof.
  destruct b; intros H; try discriminate H; cbn; tauto.
Qed.

Lemma version_digit (b : byte) : u8.shr b 4 = Byte.x04 -> hi b = "4"%byte.
Proof. unfold hi. intros ->. reflexivity. Qed.

(** X13.  Every identifier that [NewTaskID] returns is a well-formed
    random (version 4) identifier: it is not the empty identifier, its
    rendering has the digit 4 at position 14 and one of 8, 9, a, b at
    position 19, and the rendering parses back to it without error. *)
Theorem NewTaskID_well_formed (w : World) :
  let id := fst (task_id.NewTaskID w) in
  task_id.IsEmpty id = false
  /\ task_id.ParseTaskID (task_id.String id) = (id, None)
  /\ u8.index (list_byte_of_string (task_id.String id)) 14 = "4"%byte
  /\ In (u8.index (list_byte_of_string (task_id.String id)) 19) ["8"; "9"; "a"; "b"]%byte.
Proof.
  pose proof (NewTaskID_fresh w) as F. cbv zeta in F.
  destruct F as (_ & Hver & Hvar & Hne & _).
  cbv zeta.
  set (id := fst (task_id.NewTaskID w)) in *.
  split; [exact Hne|].
  split; [apply ParseTaskID_ok, Parse_String|].
  unfold task_id.String, uuid.String. rewrite list_byte_of_string_of_list_byte.
  destruct (encodeHex_version_variant id) as [-> ->].
  split; [apply version_digit, Hver | apply variant_digit, Hvar].
Qed.

(** X14.  What [ParseTaskID] does with a string it rejects: the
    identifier returned with an error is always the empty one, never the
    partly filled array of the parser; and a string whose length is not
    32, 36, 38 or 45 bytes (the empty string among them) is rejected for
    its length. *)
Theorem ParseTaskID_rejection (s : string) :
  let n := length (list_byte_of_string s) in
  (forall e, snd (task_id.ParseTaskID s) = Some e ->
     fst (task_id.ParseTaskID s) = uuid.Nil
     /\ task_id.IsEmpty (fst (task_id.ParseTaskID s)) = true)
  /\ (n <> 32%nat -> n <> 36%nat -> n <> 38%nat -> n <> 45%nat ->
      task_id.ParseTaskID s = (uuid.Nil, Some (uuidError (uuid.invalid_length n))))
  /\ (snd (task_id.ParseTaskID s) = None ->
      n = 32%nat \/ n = 36%nat \/ n = 38%nat \/ n = 45%nat).
Proof.
  cbv zeta.
  assert (L : forall n0 : nat,
            length (list_byte_of_string s) = n0 ->
            n0 <> 32%nat -> n0 <> 36%nat -> n0 <> 38%nat -> n0 <> 45%nat ->
            task_id.ParseTaskID s = (uuid.Nil, Some (uuidError (uuid.invalid_length n0)))).
  { intros n0 Hn H32 H36 H38 H45.
    unfold task_id.ParseTaskID, uuid.Parse. rewrite Hn.
    apply Nat.eqb_neq in H32, H36, H38, H45.
    change (36 + 9)%nat with 45%nat. change (36 + 2)%nat with 38%nat.
    rewrite H32, H36, H38, H45. reflexivity. }
  split; [|split].
  - intros e. unfold task_id.ParseTaskID.
    destruct (uuid.Parse s) as [uid [e'|]]; cbn; [auto | discriminate].
  - apply L. reflexivity.
  - intros Hok.
    destruct (Nat.eq_dec (length (list_byte_of_string s)) 32%nat) as [?|H32]; [auto|].
    destruct (Nat.eq_dec (length (list_byte_of_string s)) 36%nat) as [?|H36]; [auto|].
    destruct (Nat.eq_dec (length (list_byte_of_string s)) 38%nat) as [?|H38]; [auto|].
    destruct (Nat.eq_dec (length (list_byte_of_string s)) 45%nat) as [?|H45]; [auto|].
    rewrite (L _ eq_refl H32 H36 H38 H45) in Hok. discriminate Hok.
Qed.

(** X15.  The empty identifier is obtained from the strings whose
    canonical form is all zeros, and from no other accepted string. *)
Theorem ParseTaskID_empty_iff_zeros (s : string) (u : TaskID)
  (Hs : task_id.ParseTaskID s = (u, None)) :
  task_id.IsEmpty u = true
  <-> canonical_form s = "00000000-0000-0000-0000-000000000000"%string.
Proof.
  apply ParseTaskID_ok in Hs.
  assert (Hc : uuid.String u = canonical_form s).
  { unfold uuid.String, canonical_form. f_equal. apply Parse_canonical_bytes, Hs. }
  rewrite <- Hc. unfold task_id.IsEmpty. rewrite uuid_eqb_eq.
  change "00000000-0000-0000-0000-000000000000"%string with (uuid.String uuid.Nil).
  split; [intros ->; reflexivity | apply String_inj].
Qed.

Lemma ParseTaskID_empty_iff_zeros_witness :
  task_id.IsEmpty (fst (task_id.ParseTaskID "{00000000-0000-0000-0000-000000000000}")) = true
  <-> canonical_form "{00000000-0000-0000-0000-000000000000}"
      = "00000000-0000-0000-0000-000000000000"%string.
Proof.
  apply ParseTaskID_empty_iff_zeros. vm_compute. reflexivity.
Defined.

Lemma lower_idempotent (c : byte) : uuid.lower (uuid.lower c) = uuid.lower c.
Proof. destruct c; reflexivity. Qed.

Lemma xvalues_lower (c : byte) : uuid.xvalues (uuid.lower c) = uuid.xvalues c.
Proof. destruct c; reflexivity. Qed.

Lemma eqb_dash_lower (c : byte) :
  Byte.eqb (uuid.lower c) uuid.dash = Byte.eqb c uuid.dash.
Proof. destruct c; reflexivity. Qed.

Lemma index_map_lower (s : list byte) (i : nat) :
  u8.index (map uuid.lower s) i = uuid.lower (u8.index s i).
Proof.
  unfold u8.index. change Byte.x00 with (uuid.lower Byte.x00) at 1. apply map_nth.
Qed.

Lemma xtob_lower (a b : byte) : uuid.xtob (uuid.lower a) (uuid.lower b) = uuid.xtob a b.
Proof. unfold uuid.xtob. rewrite !xvalues_lower. reflexivity. Qed.

Lemma parse_hyphenated_lower (s : list byte) (ixs : list (fin 16 * nat)) (u : uuid.UUID) :
  uuid.parse_hyphenated (map uuid.lower s) ixs u = uuid.parse_hyphenated s ixs u.
Proof.
  revert u. induction ixs as [|[i x] ixs IH]; intros u;
    cbn [uuid.parse_hyphenated]; [reflexivity|].
  rewrite !index_map_lower, xtob_lower.
  destruct (uuid.xtob (u8.index s x) (u8.index s (x + 1))) as [v ok].
  destruct ok; cbn [negb]; [apply IH | reflexivity].
Qed.

Lemma parse_compact_lower (s : list byte) (idx : list (fin 16)) (u : uuid.UUID) :
  uuid.parse_compact (map uuid.lower s) idx u = uuid.parse_compact s idx u.
Proof.
  revert u. induction idx as [|i idx IH]; intros u;
    cbn [uuid.parse_compact]; [reflexivity|].
  rewrite !index_map_lower, xtob_lower.
  destruct (uuid.xtob _ _) as [v ok].
  destruct ok; cbn [negb]; [apply IH | reflexivity].
Qed.

Lemma Parse_lower (s : string) :
  fst (uuid.Parse (lower_string s)) = fst (uuid.Parse s)
  /\ (snd (uuid.Parse (lower_string s)) = None <-> snd (uuid.Parse s) = None).
Proof.
  unfold uuid.Parse, lower_string.
  rewrite list_byte_of_string_of_list_byte.
  generalize (list_byte_of_string s). intros bs.
  rewrite length_map.
  assert (Hy : forall l : list byte,
            (if negb (Byte.eqb (u8.index (map uuid.lower l) 8) uuid.dash)
                || negb (Byte.eqb (u8.index (map uuid.lower l) 13) uuid.dash)
                || negb (Byte.eqb (u8.index (map uuid.lower l) 18) uuid.dash)
                || negb (Byte.eqb (u8.index (map uuid.lower l) 23) uuid.dash)
             then (uuid.Nil, Some uuid.invalid_format)
             else uuid.parse_hyphenated (map uuid.lower l)
                    (zip (enum (fin 16)) uuid.offsets) uuid.Nil)
            = (if negb (Byte.eqb (u8.index l 8) uuid.dash)
                  || negb (Byte.eqb (u8.index l 13) uuid.dash)
                  || negb (Byte.eqb (u8.index l 18) uuid.dash)
                  || negb (Byte.eqb (u8.index l 23) uuid.dash)
               then (uuid.Nil, Some uuid.invalid_format)
               else uuid.parse_hyphenated l (zip (enum (fin 16)) uuid.offsets) uuid.Nil)).
  { intros l. rewrite !index_map_lower, !eqb_dash_lower, parse_hyphenated_lower.
    reflexivity. }
  cbv zeta.
  destruct (length bs =? 36)%nat; [rewrite Hy; tauto|].
  destruct (length bs =? 36 + 9)%nat.
  { assert (Hp : uuid.EqualFold_urn (take 9 (map uuid.lower bs))
                 = uuid.EqualFold_urn (take 9 bs)).
    { unfold uuid.EqualFold_urn. rewrite firstn_map, map_map.
      rewrite (map_ext _ uuid.lower lower_idempotent). reflexivity. }
    rewrite Hp. destruct (uuid.EqualFold_urn (take 9 bs)); simpl.
    - rewrite skipn_map, Hy. tauto.
    - split; [reflexivity | split; discriminate]. }
  destruct (length bs =? 36 + 2)%nat; [rewrite skipn_map, Hy; tauto|].
  destruct (length bs =? 32)%nat; [rewrite parse_compact_lower; tauto|].
  simpl. tauto.
Qed.

(** X16.  Parsing ignores the case of letters: a string and the same
    string in lower case give the same identifier, or are both
    rejected. *)
Theorem ParseTaskID_ignores_case (s : string) :
  fst (task_id.ParseTaskID (lower_string s)) = fst (task_id.ParseTaskID s)
  /\ (snd (task_id.ParseTaskID (lower_string s)) = None
      <-> snd (task_id.ParseTaskID s) = None).
Proof.
  destruct (Parse_lower s) as [Hf Hs].
  unfold task_id.ParseTaskID.
  destruct (uuid.Parse (lower_string s)) as [u1 [e1|]],
           (uuid.Parse s) as [u2 [e2|]]; cbn in *.
  - split; [reflexivity | split; discriminate].
  - exfalso. destruct Hs as [_ Hs]. discriminate (Hs eq_refl).
  - exfalso. destruct Hs as [Hs _]. discriminate (Hs eq_refl).
  - split; [exact Hf | tauto].
Qed.

(** ** The errors file *)

Lemma append_inv_head (p x y : string) : (p ++ x = p ++ y)%string -> x = y.
Proof.
  induction p as [|c p IH]; simpl; [auto|]. intros [= H]. exact (IH H).
Qed.

Lemma field_reason_unique (f1 f2 r1 r2 : string) :
  has_colon f1 = false -> has_colon f2 = false ->
  (f1 ++ ": " ++ r1 = f2 ++ ": " ++ r2)%string -> f1 = f2 /\ r1 = r2.
Proof.
  revert f2. induction f1 as [|c f1 IH]; intros [|c2 f2] H1 H2 E; simpl in *.
  - injection E as E. subst. auto.
  - injection E as Hc _. subst c2. simpl in H2. discriminate H2.
  - injection E as Hc _. subst c. simpl in H1. discriminate H1.
  - injection E as Hc E. subst c2.
    apply orb_false_iff in H1 as [_ H1]. apply orb_false_iff in H2 as [_ H2].
    destruct (IH f2 H1 H2 E) as [-> ->]. auto.
Qed.

(** X17.  The message of a [ValidationError] always begins with
    "validation failed for " (so it is never empty).  It names the field
    and the reason unambiguously when field names contain no colon, and
    not in general: two different errors can print the same. *)
Theorem ValidationError_Error_message :
  (forall e : ValidationError,
     exists rest, ValidationError_Error e = ("validation failed for " ++ rest)%string)
  /\ (forall e : ValidationError, ValidationError_Error e <> ""%string)
  /\ (forall e e' : ValidationError,
        has_colon (Field e) = false -> has_colon (Field e') = false ->
        ValidationError_Error e = ValidationError_Error e' -> e = e')
  /\ (exists e e' : ValidationError,
        e <> e' /\ ValidationError_Error e = ValidationError_Error e').
Proof.
  split; [|split; [|split]].
  - intros e. eexists. reflexivity.
  - intros e. unfold ValidationError_Error. simpl. discriminate.
  - intros [f r] [f' r'] H1 H2 E. unfold ValidationError_Error in E. simpl in H1, H2.
    cbn [Field Reason] in E. apply append_inv_head in E.
    destruct (field_reason_unique f f' r r' H1 H2 E) as [-> ->]. reflexivity.
  - exists (mkValidationError "a: b" "c"), (mkValidationError "a" "b: c").
    split; [discriminate | reflexivity].
Qed.

(** X18.  Initialising the package allocates the five sentinels after
    whatever exists already: the objects allocated before keep their
    text, and [Error()] on each sentinel gives the text it was declared
    with. *)
Theorem init_errors_messages (h : errors.Heap) :
  let sentinels := fst (init_errors h) in
  let h' := snd (init_errors h) in
  (forall p, (p < length h)%nat -> h' !! p = h !! p)
  /\ length h' = (length h + 5)%nat
  /\ errorString_Error h' <$> sentinel_list sentinels = Some <$> sentinel_texts
  /\ NoDup sentinel_texts.
Proof.
  unfold init_errors, errors.New, sentinel_list, sentinel_texts. cbn [fst snd].
  split; [|split; [|split]].
  - intros p Hp. rewrite <- !app_assoc. apply lookup_app_l, Hp.
  - rewrite !length_app. simpl. lia.
  - cbn [fmap list_fmap sentTaskNotFound sentInvalidStatus sentInvalidStateTransition
         sentEmptyTitle sentDuplicateTaskID errorString_Error].
    rewrite <- !app_assoc. cbn [app].
    rewrite !length_app. cbn [length].
    change errors.ptr with nat. change errors.Heap with (list string) in *.
    set (T := ["task not found"; "invalid task status"; "invalid state transition";
               "task title cannot be empty"; "task with this ID already exists"]%string).
    assert (K : forall i j : nat, j = (length h + i)%nat -> (h ++ T) !! j = T !! i).
    { intros i j ->. rewrite lookup_app_r by lia. f_equal. lia. }
    rewrite (K 0%nat (length h)) by lia.
    rewrite (K 1%nat) by lia. rewrite (K 2%nat) by lia.
    rewrite (K 3%nat) by lia. rewrite (K 4%nat) by lia.
    reflexivity.
  - repeat (apply NoDup_cons; split;
            [rewrite ?elem_of_cons, elem_of_nil; intros H;
             repeat (destruct H as [H|H]; [discriminate H|]); exact H|]).
    apply NoDup_nil_2.
Qed.

(** ** task.go with task_filter.go *)

(** X19.  A task that [NewTask] has just built is found by a filter
    exactly when the filter asks for no status or for [pool], asks for
    tags that were all given to [NewTask], and sets no due-date bound:
    a new task has no due date, so any bound excludes it. *)
Theorem new_task_Matches
  (title : string) (tags : slice.t string) (w : World) (t : task.Task)
  (f : task_filter.TaskFilter)
  (Hok : fst (fst (task.NewTask title tags w)) = Some t) :
  task_filter.Matches f t = true
  <->
  (task_filter.Status f = None \/ task_filter.Status f = Some "pool"%string)
  /\ (forall tag, tag ∈ slice.elems (task_filter.Tags f) -> tag ∈ slice.elems tags)
  /\ task_filter.DueAfter f = None
  /\ task_filter.DueBefore f = None.
Proof.
  assert (Htags : slice.elems (task.Tags t) = slice.elems tags).
  { apply NewTask_success in Hok as (_ & _ & ->). cbn [task.Tags].
    unfold slice.len, slice.clone, slice.elems. destruct tags as [[|x l]|]; reflexivity. }
  assert (Hst : task.Status t = "pool"%string).
  { apply NewTask_success in Hok as (_ & _ & ->). reflexivity. }
  assert (Hdue : task.DueDate t = None).
  { apply NewTask_success in Hok as (_ & _ & ->). reflexivity. }
  rewrite Matches_guards, Htags, Hst, Hdue.
  split.
  - intros (H1 & H2 & H3 & H4). split; [exact H1|]. split; [|split].
    + destruct H2 as [->|[->|H2]]; [intros x Hx; inversion Hx | intros x Hx; inversion Hx | exact H2].
    + destruct (task_filter.DueAfter f) as [a|]; [|reflexivity].
      destruct (H3 a eq_refl) as (d & Hd & _). discriminate Hd.
    + destruct (task_filter.DueBefore f) as [b|]; [|reflexivity].
      destruct (H4 b eq_refl) as (d & Hd & _). discriminate Hd.
  - intros (H1 & H2 & -> & ->). repeat split; auto; discriminate.
Qed.

Lemma new_task_Matches_witness :
  exists t,
    fst (fst (task.NewTask "Buy milk" (Some ["home"; "shop"]%string) sample_world)) = Some t
    /\ task_filter.Matches
         (task_filter.mkTaskFilter (Some StatusPool) (Some ["shop"%string]) None None 0) t
       = true.
Proof.
  eexists. split; [vm_compute; reflexivity|].
  refine (proj2 (new_task_Matches "Buy milk" (Some ["home"; "shop"]%string) sample_world
                   _ _ _) _).
  - vm_compute. reflexivity.
  - cbn. repeat split; auto.
    intros tag Htag. unfold slice.elems in *. simpl in *.
    apply elem_of_cons in Htag as [->|Htag]; [|inversion Htag].
    apply elem_of_cons. right. apply elem_of_cons. left. reflexivity.
Defined.


